(** * addrusage: used/unused address statistics of an HD account

    A shallow embedding of [main.go].  The program derives the child
    addresses of an account's external and internal branch, asks a dcrd
    node which of them were ever used, and prints the counts, optionally
    per bucket of indices.

    Layout of the development:
    - machine integers and the float ratio handed to [Printf];
    - the collaborators of the program (key derivation, address encoding,
      the RPC client, flag-independent start-up calls) as a class;
    - the program: [addr], [branchStats], [stats], [tlsConfig], [main];
    - the vocabulary of the specification (valid indices, batches);
    - an in-memory stub of the collaborators;
    - lemmas and the properties of the scan. *)

From Stdlib Require Import String.
From Stdlib Require Import ZArith List Bool Lia.
From Stdlib Require Import Uint63 Floats.
Import ListNotations.
Local Open Scope string_scope.
Local Open Scope list_scope.
Local Open Scope Z_scope.

(** ** Machine integers and floats *)

(** [uint32(x)]: conversion to, and arithmetic in, Go's [uint32] keeps the
    low 32 bits. *)
Definition uint32 (x : Z) : Z := x mod 2 ^ 32.

(** The values a [uint32] variable can hold. *)
Definition is_uint32 (x : Z) : Prop := 0 <= x < 2 ^ 32.

(** [float64(x)] for an unsigned [x] below [2^53]: the conversion is exact. *)
Definition float64 (x : Z) : float := PrimFloat.of_uint63 (Uint63.of_Z x).

(** [float64(a)/float64(b)], the used fraction handed to [%f].  IEEE 754
    division: [0/0] is NaN and [a/0] for [a > 0] is [+Inf]; neither traps. *)
Definition fraction (a b : Z) : float := PrimFloat.div (float64 a) (float64 b).

(** ** Collaborators

    Everything [main.go] imports and calls.  Derivation and encoding are
    pure; the RPC client talks to a remote node, so a query takes and
    returns the state of the connection. *)
Class Collaborators : Type := {
  (** Go's non-nil [error] values. *)
  error : Type;
  (** An [hdkeychain.ExtendedKey]. *)
  ExtendedKey : Type;
  (** [[]byte] of a serialized public key, and its [Hash160]. *)
  PubKey : Type;
  Hash : Type;
  (** The [chaincfg.Params], used as [stdaddr.AddressParams]. *)
  Params : Type;
  (** [stdaddr.Address]. *)
  Address : Type;
  (** [bitset.Bytes], the answer of a usage query. *)
  Bitset : Type;
  (** The state of the websocket connection and of the node behind it. *)
  Remote : Type;
  (** [[]byte] read from the certificate file, and an [x509.CertPool]. *)
  FileData : Type;
  CertPool : Type;

  (** [errors.Is(err, hdkeychain.ErrInvalidChild)]. *)
  IsErrInvalidChild : error -> bool;
  (** [fmt.Errorf(msg)]. *)
  Errorf : string -> error;
  (** [Child(i)] of an extended key. *)
  Child : ExtendedKey -> Z -> ExtendedKey + error;
  (** [SerializedPubKey()] of an extended key. *)
  SerializedPubKey : ExtendedKey -> PubKey;
  (** [stdaddr.Hash160(pk)]. *)
  Hash160 : PubKey -> Hash;
  (** [stdaddr.NewAddressPubKeyHashEcdsaSecp256k1V0(hash, params)]. *)
  NewAddressPubKeyHashEcdsaSecp256k1V0 : Hash -> Params -> Address + error;
  (** [UsedAddresses(ctx, addrs)] of the dcrd RPC client: one round trip. *)
  UsedAddresses : Remote -> list Address -> (Bitset + error) * Remote;
  (** [bitset.Bytes.Get(j)].  The answer is taken to cover the batch: the
      library indexes its bytes, and a shorter answer is outside the model. *)
  Get : Bitset -> Z -> bool;
  (** [chaincfg.MainNetParams()] and [chaincfg.TestNet3Params()]. *)
  MainNetParams : Params;
  TestNet3Params : Params;
  (** [hdkeychain.NewKeyFromString(s, params)]. *)
  NewKeyFromString : string -> Params -> ExtendedKey + error;
  (** [os.ReadFile(name)]. *)
  ReadFile : string -> FileData + error;
  (** [x509.NewCertPool()] followed by [AppendCertsFromPEM(b)]: the pool and
      whether a certificate was appended. *)
  AppendCertsFromPEM : FileData -> CertPool * bool;
  (** [wsrpc.Dial(ctx, addr, WithTLSConfig(tc), WithBasicAuth(user, pass))],
      given the server name and root pool of [tc]. *)
  Dial : string -> string * CertPool -> string -> string -> Remote + error
}.

(** ** The program *)

(** The command line flags, after [flag.Parse()].  The numeric flags are
    [uint]; [stats] narrows them to [uint32]. *)
Record flags : Type := {
  bucketFlag : Z;
  connectFlag : string;
  userFlag : string;
  passFlag : string;
  xpubFlag : string;
  caCert : string;
  testnetFlag : bool;
  externalFlag : Z;
  internalFlag : Z;
  externalStartFlag : Z;
  internalStartFlag : Z
}.

Section Program.
Context `{Collaborators}.

(** What the program does to the outside, in order: a usage query sent to
    the node, and the two [Printf] lines with their arguments. *)
Inductive event : Type :=
| Query (addrs : list Address)
| WindowLine (i max used unused : Z) (frac : float)
| TotalsLine (totalUsed totalUnused : Z) (frac : float).

(** The connection and everything done so far, oldest first. *)
Record World : Type := { remote : Remote; trace : list event }.

(** How a function returning [error] ends: [err == nil], [err != nil], or
    the loop was still running when the fuel ran out. *)
Inductive outcome (A : Type) : Type :=
| Done (a : A)
| Failed (err : error)
| OutOfFuel.
Arguments Done {A} a.
Arguments Failed {A} err.
Arguments OutOfFuel {A}.

(** Computations that may fail and act on the world; the world a failed
    computation leaves behind is kept (printed lines are not retracted). *)
Definition M (A : Type) : Type := World -> outcome A * World.

Definition ret {A} (a : A) : M A := fun w => (Done a, w).

Definition bind {A B} (m : M A) (k : A -> M B) : M B :=
  fun w =>
    match m w with
    | (Done a, w') => k a w'
    | (Failed err, w') => (Failed err, w')
    | (OutOfFuel, w') => (OutOfFuel, w')
    end.

(** A pure step that may fail. *)
Definition lift {A} (r : outcome A) : M A := fun w => (r, w).

(** [fmt.Printf] of one line. *)
Definition emit (e : event) : M unit :=
  fun w => (Done tt, {| remote := remote w; trace := trace w ++ [e] |}).

(** [u.rpc.UsedAddresses(ctx, addrs)]: the call is recorded, the node
    answers, the connection moves on. *)
Definition rpcUsedAddresses (addrs : list Address) : M Bitset :=
  fun w =>
    let '(r, c) := UsedAddresses (remote w) addrs in
    let w' := {| remote := c; trace := trace w ++ [Query addrs] |} in
    match r with
    | inl usedBits => (Done usedBits, w')
    | inr err => (Failed err, w')
    end.

(** [type usage struct]; the [rpc] handle is the [remote] of the world. *)
Record usage : Type := { xpub : ExtendedKey; params : Params }.

(** [func (u *usage) addr(key)]. *)
Definition addr (u : usage) (key : ExtendedKey) : Address + error :=
  let pk := SerializedPubKey key in
  let hash := Hash160 pk in
  NewAddressPubKeyHashEcdsaSecp256k1V0 hash (params u).

(** [for j := i; j < max; j++ { ... }] of [branchStats]: the address batch of
    one window.  [continue] on an invalid child, [return err] on any other
    error of [Child] or [addr]. *)
Fixpoint childLoop (fuel : nat) (u : usage) (branchKey : ExtendedKey)
    (j max : Z) (addrs : list Address) : outcome (list Address) :=
  if j <? max then
    match fuel with
    | O => OutOfFuel
    | S fuel' =>
        match Child branchKey j with
        | inr err =>
            if IsErrInvalidChild err
            then childLoop fuel' u branchKey (uint32 (j + 1)) max addrs
            else Failed err
        | inl childKey =>
            match addr u childKey with
            | inr err => Failed err
            | inl a =>
                childLoop fuel' u branchKey (uint32 (j + 1)) max (addrs ++ [a])
            end
        end
    end
  else Done addrs.

(** [for j := range addrs { if usedBits.Get(j) { used++ } else { unused++ } }]
    as a fold over the positions [0 .. len(addrs)-1] of the batch. *)
Definition countBits (usedBits : Bitset) (addrs : list Address) : Z * Z :=
  fold_left
    (fun (c : Z * Z) (j : nat) =>
       let '(used, unused) := c in
       if Get usedBits (Z.of_nat j)
       then (uint32 (used + 1), unused)
       else (used, uint32 (unused + 1)))
    (seq 0 (length addrs)) (0, 0).

(** [for i := uint32(begin); i < n; i += bucket { ... }] of [branchStats],
    with [bucket] already replaced by [n] when it was [0].  The inner loop
    gets as many steps as it has indices. *)
Fixpoint windowLoop (fuel : nat) (u : usage) (branchKey : ExtendedKey)
    (n bucket : Z) (i totalUsed totalUnused : Z) : M (Z * Z) :=
  if i <? n then
    match fuel with
    | O => lift OutOfFuel
    | S fuel' =>
        let max := uint32 (i + bucket) in
        let max := if max >? n then n else max in
        bind (lift (childLoop (Z.to_nat (max - i)) u branchKey i max []))
          (fun addrs =>
        bind (rpcUsedAddresses addrs) (fun usedBits =>
        let '(used, unused) := countBits usedBits addrs in
        let totalUsed := uint32 (totalUsed + used) in
        let totalUnused := uint32 (totalUnused + unused) in
        bind (if bucket =? n then ret tt
              else emit (WindowLine i max used unused
                           (fraction used (Z.of_nat (length addrs)))))
          (fun _ =>
        windowLoop fuel' u branchKey n bucket (uint32 (i + bucket))
          totalUsed totalUnused)))
    end
  else ret (totalUsed, totalUnused).

(** [func (u *usage) branchStats(ctx, n, begin, bucket, branch uint32) error].
    [make([]stdaddr.Address, 0, n*bucket)] only reserves capacity for the
    batch, which every window starts over with [addrs = addrs[:0]]; the
    allocation is taken to succeed (see [reservedCap]). *)
Definition branchStats (fuel : nat) (u : usage) (n begin bucket branch : Z)
    : M unit :=
  bind (lift (match Child (xpub u) branch with
              | inl branchKey => Done branchKey
              | inr err => Failed err
              end)) (fun branchKey =>
  let bucket := if bucket =? 0 then n else bucket in
  bind (windowLoop fuel u branchKey n bucket begin 0 0) (fun totals =>
  let '(totalUsed, totalUnused) := totals in
  let total := uint32 (totalUsed + totalUnused) in
  emit (TotalsLine totalUsed totalUnused (fraction totalUsed total)))).

(** [func (u *usage) stats(ctx) error]. *)
Definition stats (fuel : nat) (f : flags) (u : usage) : M unit :=
  let external := uint32 (externalFlag f) in
  let internal := uint32 (internalFlag f) in
  let bucketSize := uint32 (bucketFlag f) in
  bind (if negb (external =? 0)
        then branchStats fuel u external (uint32 (externalStartFlag f))
               bucketSize 0
        else ret tt) (fun _ =>
  if negb (internal =? 0)
  then branchStats fuel u internal (uint32 (internalStartFlag f))
         bucketSize 1
  else ret tt).

(** [func tlsConfig(serverName string)], returning a [tls.Config] or an error: the server
    name and the root pool of the configuration. *)
Definition tlsConfig (f : flags) (serverName : string)
    : (string * CertPool) + error :=
  match ReadFile (caCert f) with
  | inr err => inr err
  | inl b =>
      let '(pool, ok) := AppendCertsFromPEM b in
      if negb ok then inr (Errorf "failed to append certificates")
      else inl (serverName, pool)
  end.

(** What [log.Fatal] was given. *)
Inductive logged : Type :=
| LogText (s : string)
| LogError (err : error).

(** How the process ends: [log.Fatal] prints its argument and exits with
    status 1; returning from [main] exits with status 0. *)
Inductive process : Type :=
| Exit (code : Z) (log : option logged) (out : list event)
| Running (out : list event).

Definition logFatal (v : logged) : process := Exit 1 (Some v) [].

(** [func main()].  The value [u.stats(ctx)] returns is not looked at. *)
Definition main (fuel : nat) (f : flags) : process :=
  if (externalFlag f =? 0) && (internalFlag f =? 0) then
    logFatal (LogText "-external and/or -internal flags required")
  else if externalStartFlag f >? externalFlag f then
    logFatal (LogText "-externalstart must not be greater than -external")
  else if internalStartFlag f >? internalFlag f then
    logFatal (LogText "-internalstart must not be greater than -internal")
  else if String.eqb (xpubFlag f) EmptyString then
    logFatal (LogText "-xpub flag is required")
  else
    let params := if testnetFlag f then TestNet3Params else MainNetParams in
    match NewKeyFromString (xpubFlag f) params with
    | inr err => logFatal (LogError err)
    | inl xpub =>
        match tlsConfig f "" with
        | inr err => logFatal (LogError err)
        | inl tc =>
            match Dial (connectFlag f) tc (userFlag f) (passFlag f) with
            | inr err => logFatal (LogError err)
            | inl c =>
                let u := {| xpub := xpub; params := params |} in
                match stats fuel f u {| remote := c; trace := [] |} with
                | (OutOfFuel, w) => Running (trace w)
                | (_, w) => Exit 0 None (trace w)
                end
            end
        end
    end.

End Program.

Arguments Done {_ A} a.
Arguments Failed {_ A} err.
Arguments OutOfFuel {_ A}.

(** ** Vocabulary of the specification *)

Section Vocabulary.
Context `{Collaborators}.

(** The [k] indices from [lo] on. *)
Fixpoint indicesFrom (k : nat) (lo : Z) : list Z :=
  match k with
  | O => []
  | S k' => lo :: indicesFrom k' (lo + 1)
  end.

(** The indices [lo, lo+1, ..., hi-1] of a half-open window. *)
Definition indices (lo hi : Z) : list Z := indicesFrom (Z.to_nat (hi - lo)) lo.

(** Index [j] of the branch is classified InvalidChild. *)
Definition invalidChild (branchKey : ExtendedKey) (j : Z) : bool :=
  match Child branchKey j with
  | inr err => IsErrInvalidChild err
  | inl _ => false
  end.

(** The error that makes index [j] fatal to the scan, if any: an error of
    [Child] other than InvalidChild, or an error of the encoding. *)
Definition fatalAt (u : usage) (branchKey : ExtendedKey) (j : Z)
    : option error :=
  match Child branchKey j with
  | inr err => if IsErrInvalidChild err then None else Some err
  | inl childKey =>
      match addr u childKey with
      | inr err => Some err
      | inl _ => None
      end
  end.

(** The first fatal error met when the indices [js] are visited in order. *)
Fixpoint firstFatal (u : usage) (branchKey : ExtendedKey) (js : list Z)
    : option error :=
  match js with
  | [] => None
  | j :: js' =>
      match fatalAt u branchKey j with
      | Some err => Some err
      | None => firstFatal u branchKey js'
      end
  end.

(** An index is kept when it is not classified InvalidChild. *)
Definition kept (branchKey : ExtendedKey) (j : Z) : bool :=
  negb (invalidChild branchKey j).

(** The address of index [j], when it has one. *)
Definition addressAt (u : usage) (branchKey : ExtendedKey) (j : Z)
    : option Address :=
  match Child branchKey j with
  | inr _ => None
  | inl childKey =>
      match addr u childKey with
      | inr _ => None
      | inl a => Some a
      end
  end.

(** The addresses of the indices of [js] that have one, in index order. *)
Definition batchOf (u : usage) (branchKey : ExtendedKey) (js : list Z)
    : list Address :=
  flat_map (fun j => match addressAt u branchKey j with
                     | Some a => [a]
                     | None => []
                     end) js.

(** The number of indices of [lo, hi) not classified InvalidChild. *)
Definition validCount (branchKey : ExtendedKey) (lo hi : Z) : Z :=
  Z.of_nat (List.length
              (filter (fun j => negb (invalidChild branchKey j))
                 (indices lo hi))).

(** The number of positions [0 .. k-1] whose bit is [b]. *)
Definition bitCount (usedBits : Bitset) (b : bool) (k : nat) : Z :=
  Z.of_nat (List.length
              (filter (fun j => Bool.eqb (Get usedBits (Z.of_nat j)) b)
                 (seq 0 k))).

(** The upper end of the window that starts at [i], as the loop computes
    it: [max := i + bucket; if max > n { max = n }]. *)
Definition windowEnd (n bucket i : Z) : Z :=
  let max := uint32 (i + bucket) in
  if max >? n then n else max.

(** The capacity [make([]stdaddr.Address, 0, n*bucket)] asks for, from the
    bucket size as given.  The model takes the allocation to succeed. *)
Definition reservedCap (n bucket : Z) : Z := uint32 (n * bucket).

(** The events one completed window adds: its query and, unless the bucket
    equals [n], its line. *)
Definition windowEvents (n bucket i : Z) (addrs : list Address)
    (bits : Bitset) : list event :=
  let k := List.length addrs in
  Query addrs ::
  (if bucket =? n then []
   else [WindowLine i (windowEnd n bucket i)
           (bitCount bits true k) (bitCount bits false k)
           (fraction (bitCount bits true k) (Z.of_nat k))]).

(** The number of windows of [i, n): the range split into buckets. *)
Definition windowCount (n bucket i : Z) : nat :=
  Z.to_nat ((n - i + bucket - 1) / bucket).

(** The window starts of a scan from [begin] do not wrap: the start that
    follows the last window still fits in 32 bits. *)
Definition noWrap (n bucket begin : Z) : Prop :=
  begin + Z.of_nat (windowCount n bucket begin) * bucket < 2 ^ 32.

(** The events of a window without a valid address. *)
Definition emptyWindowEvent (e : event) : Prop :=
  e = Query [] \/ exists lo hi, e = WindowLine lo hi 0 0 (fraction 0 0).

(** The queries among the events. *)
Definition queries (t : list event) : list (list Address) :=
  flat_map (fun e => match e with Query addrs => [addrs] | _ => [] end) t.

(** The per-window lines among the events. *)
Definition windowLines (t : list event) : list event :=
  filter (fun e => match e with WindowLine _ _ _ _ _ => true | _ => false end)
    t.

(** The used and the unused counts of the window lines, added up. *)
Definition sumUsed (t : list event) : Z :=
  fold_right (fun e acc => match e with
                           | WindowLine _ _ used _ _ => used + acc
                           | _ => acc
                           end) 0 t.

Definition sumUnused (t : list event) : Z :=
  fold_right (fun e acc => match e with
                           | WindowLine _ _ _ unused _ => unused + acc
                           | _ => acc
                           end) 0 t.

(** A window line whose counts add up to the number of indices of its
    window that are not classified InvalidChild. *)
Definition windowLineOk (branchKey : ExtendedKey) (e : event) : Prop :=
  match e with
  | WindowLine lo hi used unused _ =>
      used + unused = validCount branchKey lo hi
  | _ => True
  end.

(** The node answers every query, and reports an address as used exactly
    when [seenBy] holds of it: a fixed assignment of answers per address. *)
Definition answersBy (seenBy : Address -> bool) : Prop :=
  forall (c : Remote) (addrs : list Address),
  exists bits c',
    UsedAddresses c addrs = (inl bits, c') /\
    forall p a, nth_error addrs p = Some a ->
                Get bits (Z.of_nat p) = seenBy a.

(** The number of addresses of a batch whose answer is [b]. *)
Definition seenCount (seenBy : Address -> bool) (b : bool)
    (addrs : list Address) : Z :=
  Z.of_nat (List.length (filter (fun a => Bool.eqb (seenBy a) b) addrs)).

(** The totals lines among the events. *)
Definition totalsLines (t : list event) : list event :=
  filter (fun e => match e with TotalsLine _ _ _ => true | _ => false end) t.

(** The bounds of the first [k] windows of a scan of [lo, hi) that does not
    wrap: each starts [bucket] after the one before and ends at the next
    start or at [hi]. *)
Fixpoint windowBounds (k : nat) (lo hi bucket : Z) : list (Z * Z) :=
  match k with
  | O => []
  | S k' =>
      (lo, Z.min (lo + bucket) hi) :: windowBounds k' (lo + bucket) hi bucket
  end.

(** The batch of a window given by its bounds. *)
Definition batchOfWindow (u : usage) (branchKey : ExtendedKey)
    (ab : Z * Z) : list Address :=
  batchOf u branchKey (indices (fst ab) (snd ab)).

(** The bounds printed by the window lines among the events. *)
Definition lineBounds (t : list event) : list (Z * Z) :=
  flat_map (fun e => match e with
                     | WindowLine lo hi _ _ _ => [(lo, hi)]
                     | _ => []
                     end) t.

(** The connection after the queries [qs], sent one after the other. *)
Definition replay (c : Remote) (qs : list (list Address)) : Remote :=
  fold_left (fun c q => snd (UsedAddresses c q)) qs c.

(** The number of branches [stats] scans: those whose count, narrowed to
    32 bits, is not 0. *)
Definition scannedBranches (f : flags) : nat :=
  Nat.add (if uint32 (externalFlag f) =? 0 then O else 1%nat)
          (if uint32 (internalFlag f) =? 0 then O else 1%nat).

(** The four flag checks of [main] pass. *)
Definition flagsValid (f : flags) : Prop :=
  (externalFlag f <> 0 \/ internalFlag f <> 0)
  /\ externalStartFlag f <= externalFlag f
  /\ internalStartFlag f <= internalFlag f
  /\ xpubFlag f <> EmptyString.

(** The start-up of [main] succeeds: the account key parses, the
    certificate file is read and holds a certificate, and the node is
    reached. *)
Definition startsUp (f : flags) : Prop :=
  exists key b c,
    NewKeyFromString (xpubFlag f)
      (if testnetFlag f then TestNet3Params else MainNetParams) = inl key
    /\ ReadFile (caCert f) = inl b
    /\ snd (AppendCertsFromPEM b) = true
    /\ Dial (connectFlag f) (EmptyString, fst (AppendCertsFromPEM b))
         (userFlag f) (passFlag f) = inl c.

End Vocabulary.

(** ** An in-memory stub of the collaborators

    Keys are derivation paths and an address is the path of its key.  The
    stub is told how each index of each branch derives, which addresses the
    node has seen, and which round trips the node answers. *)

Inductive derivation : Type := Derives | InvalidChild | Breaks.

Record stubNode : Type := {
  derives : Z -> Z -> derivation;
  seen : list Z -> bool;
  answers : nat -> bool
}.

Definition stubChild (s : stubNode) (key : list Z) (i : Z)
    : list Z + string :=
  match key with
  | [branch] =>
      match derives s branch i with
      | Derives => inl [branch; i]
      | InvalidChild => inr "invalid child"
      | Breaks => inr "derivation failed"
      end
  | _ => inl (key ++ [i])
  end.

Definition stubUsedAddresses (s : stubNode) (roundTrips : nat)
    (addrs : list (list Z)) : (list bool + string) * nat :=
  (if answers s roundTrips then inl (map (seen s) addrs)
   else inr "connection lost",
   S roundTrips).

Definition Stub (s : stubNode) : Collaborators := {|
  error := string;
  ExtendedKey := list Z;
  PubKey := list Z;
  Hash := list Z;
  Params := bool;
  Address := list Z;
  Bitset := list bool;
  Remote := nat;
  FileData := string;
  CertPool := string;
  IsErrInvalidChild := fun err => String.eqb err "invalid child";
  Errorf := fun msg => msg;
  Child := stubChild s;
  SerializedPubKey := fun key => key;
  Hash160 := fun pk => pk;
  NewAddressPubKeyHashEcdsaSecp256k1V0 := fun hash _ => inl hash;
  UsedAddresses := stubUsedAddresses s;
  Get := fun bits j => nth (Z.to_nat j) bits false;
  MainNetParams := true;
  TestNet3Params := false;
  NewKeyFromString :=
    fun str _ => if String.eqb str "xpub" then inl [] else inr "bad key";
  ReadFile := fun name => inl name;
  AppendCertsFromPEM := fun b => (b, true);
  Dial := fun _ _ _ _ => inl O
|}.

(** Every index derives, the node has seen the addresses of even index and
    answers every query. *)
Definition evenSeen : stubNode := {|
  derives := fun _ _ => Derives;
  seen := fun a => Z.even (last a 0);
  answers := fun _ => true
|}.

(** No index of any branch has a child key; the node answers. *)
Definition noChild : stubNode := {|
  derives := fun _ _ => InvalidChild;
  seen := fun _ => false;
  answers := fun _ => true
|}.

(** As [s], but the node answers no query. *)
Definition offline (s : stubNode) : stubNode := {|
  derives := derives s;
  seen := seen s;
  answers := fun _ => false
|}.

(** As [evenSeen], but only the indices below [k] have a child key. *)
Definition derivesBelow (k : Z) : stubNode := {|
  derives := fun _ j => if j <? k then Derives else InvalidChild;
  seen := seen evenSeen;
  answers := answers evenSeen
|}.

(** As [evenSeen], but index 1 of every branch has no child key and the
    derivation of index 4 breaks. *)
Definition mixed : stubNode := {|
  derives := fun _ j =>
    if j =? 1 then InvalidChild else if j =? 4 then Breaks else Derives;
  seen := seen evenSeen;
  answers := answers evenSeen
|}.

(** The flags of a run over the external branch alone. *)
Definition scanExternal (count start bucket : Z) : flags := {|
  bucketFlag := bucket;
  connectFlag := "wss://localhost:9109/ws";
  userFlag := "user";
  passFlag := "pass";
  xpubFlag := "xpub";
  caCert := "rpc.cert";
  testnetFlag := false;
  externalFlag := count;
  internalFlag := 0;
  externalStartFlag := start;
  internalStartFlag := 0
|}.

Definition stubUsage (s : stubNode) : @usage (Stub s) :=
  @Build_usage (Stub s) [] true.

Definition freshWorld (s : stubNode) : @World (Stub s) :=
  @Build_World (Stub s) O [].


(** ** Lemmas *)

Section Lemmas.
Context `{Collaborators}.

Lemma uint32_small (x : Z) : 0 <= x < 2 ^ 32 -> uint32 x = x.
Proof. intros Hx. unfold uint32. apply Z.mod_small. exact Hx. Qed.

Lemma uint32_range (x : Z) : 0 <= uint32 x < 2 ^ 32.
Proof. unfold uint32. apply Z.mod_pos_bound. lia. Qed.

Lemma indices_nil (lo hi : Z) : hi <= lo -> indices lo hi = [].
Proof.
  intros Hle. unfold indices.
  replace (Z.to_nat (hi - lo)) with O by lia. reflexivity.
Qed.

Lemma indices_cons (lo hi : Z) :
  lo < hi -> indices lo hi = lo :: indices (lo + 1) hi.
Proof.
  intros Hlt. unfold indices.
  replace (Z.to_nat (hi - lo)) with (S (Z.to_nat (hi - (lo + 1)))) by lia.
  reflexivity.
Qed.

Lemma indices_length (lo hi : Z) :
  List.length (indices lo hi) = Z.to_nat (hi - lo).
Proof.
  unfold indices. generalize (Z.to_nat (hi - lo)) as k. intros k. revert lo.
  induction k as [|k IH]; intros lo; [reflexivity|].
  cbn [indicesFrom List.length]. now rewrite IH.
Qed.

Lemma indices_app (lo mid hi : Z) :
  lo <= mid <= hi -> indices lo hi = indices lo mid ++ indices mid hi.
Proof.
  intros [Hlo Hhi].
  remember (Z.to_nat (mid - lo)) as k eqn:Hk.
  revert lo Hlo Hk. induction k as [|k IH]; intros lo Hlo Hk.
  - assert (lo = mid) by lia. subst lo.
    now rewrite (indices_nil mid mid) by lia.
  - rewrite (indices_cons lo hi) by lia.
    rewrite (indices_cons lo mid) by lia.
    cbn [app]. f_equal. apply IH; lia.
Qed.

Lemma indices_In (lo hi j : Z) : In j (indices lo hi) <-> lo <= j < hi.
Proof.
  remember (Z.to_nat (hi - lo)) as k eqn:Hk.
  revert lo Hk. induction k as [|k IH]; intros lo Hk.
  - rewrite indices_nil by lia. cbn. lia.
  - rewrite indices_cons by lia. cbn [In].
    rewrite (IH (lo + 1)) by lia. lia.
Qed.

Lemma firstFatal_app (u : usage) (bk : ExtendedKey) (js1 js2 : list Z) :
  firstFatal u bk (js1 ++ js2) =
  match firstFatal u bk js1 with
  | Some err => Some err
  | None => firstFatal u bk js2
  end.
Proof.
  induction js1 as [|j js1 IH]; cbn [app firstFatal]; [reflexivity|].
  destruct (fatalAt u bk j); [reflexivity|exact IH].
Qed.

Lemma batchOf_app (u : usage) (bk : ExtendedKey) (js1 js2 : list Z) :
  batchOf u bk (js1 ++ js2) = batchOf u bk js1 ++ batchOf u bk js2.
Proof. unfold batchOf. apply flat_map_app. Qed.

(** The inner loop, given as many steps as the window has indices, never
    runs out of fuel: it fails with the first fatal error of the window, in
    index order, and otherwise appends the addresses of the window. *)
Lemma childLoop_spec (u : usage) (bk : ExtendedKey) (max : Z) :
  max < 2 ^ 32 ->
  forall (fuel : nat) (j : Z) (addrs : list Address),
    0 <= j -> (Z.to_nat (max - j) <= fuel)%nat ->
    childLoop fuel u bk j max addrs =
    match firstFatal u bk (indices j max) with
    | Some err => Failed err
    | None => Done (addrs ++ batchOf u bk (indices j max))
    end.
Proof.
  intros Hmax fuel.
  induction fuel as [|fuel IH]; intros j addrs Hj Hfuel.
  - cbn [childLoop]. destruct (j <? max) eqn:Hlt; [lia|].
    rewrite indices_nil by lia. cbn. now rewrite app_nil_r.
  - cbn [childLoop]. destruct (j <? max) eqn:Hlt.
    + apply Z.ltb_lt in Hlt.
      rewrite (indices_cons j max) by lia.
      rewrite (uint32_small (j + 1)) by lia.
      cbn [firstFatal batchOf flat_map]. unfold fatalAt, addressAt.
      destruct (Child bk j) as [childKey|err].
      * destruct (addr u childKey) as [a|err]; [|reflexivity].
        rewrite IH by lia. fold (batchOf u bk (indices (j + 1) max)).
        destruct (firstFatal u bk (indices (j + 1) max)); [reflexivity|].
        now rewrite <- app_assoc.
      * destruct (IsErrInvalidChild err); [|reflexivity].
        rewrite IH by lia. reflexivity.
    + apply Z.ltb_ge in Hlt. rewrite indices_nil by lia.
      cbn. now rewrite app_nil_r.
Qed.


Lemma bitCount_S (bits : Bitset) (b : bool) (k : nat) :
  bitCount bits b (S k) =
  bitCount bits b k + (if Bool.eqb (Get bits (Z.of_nat k)) b then 1 else 0).
Proof.
  unfold bitCount. rewrite seq_S, filter_app, length_app. cbn [filter Nat.add].
  destruct (Bool.eqb (Get bits (Z.of_nat k)) b); cbn [List.length]; lia.
Qed.

Lemma bitCount_bounds (bits : Bitset) (b : bool) (k : nat) :
  0 <= bitCount bits b k <= Z.of_nat k.
Proof.
  induction k as [|k IH]; [cbn; lia|].
  rewrite bitCount_S. destruct (Bool.eqb _ b); lia.
Qed.

(** Every position of the batch is counted once: as used or as unused. *)
Lemma bitCount_total (bits : Bitset) (k : nat) :
  bitCount bits true k + bitCount bits false k = Z.of_nat k.
Proof.
  induction k as [|k IH]; [reflexivity|].
  rewrite !bitCount_S. destruct (Get bits (Z.of_nat k)); cbn [Bool.eqb]; lia.
Qed.

(** The counting loop cannot wrap: a batch has fewer than [2^32] addresses. *)
Lemma countBits_spec (bits : Bitset) (addrs : list Address) :
  Z.of_nat (List.length addrs) < 2 ^ 32 ->
  countBits bits addrs =
  (bitCount bits true (List.length addrs),
   bitCount bits false (List.length addrs)).
Proof.
  unfold countBits. generalize (List.length addrs) as k.
  induction k as [|k IH]; intros Hk; [reflexivity|].
  rewrite seq_S, fold_left_app, IH by lia. cbn [fold_left Nat.add].
  rewrite !bitCount_S.
  pose proof (bitCount_bounds bits true k).
  pose proof (bitCount_bounds bits false k).
  destruct (Get bits (Z.of_nat k)); cbn [Bool.eqb];
    rewrite uint32_small by lia; f_equal; lia.
Qed.

Lemma batchOf_length_le (u : usage) (bk : ExtendedKey) (js : list Z) :
  (List.length (batchOf u bk js) <= List.length js)%nat.
Proof.
  induction js as [|j js IH]; [apply Nat.le_refl|].
  change (batchOf u bk (j :: js))
    with ((match addressAt u bk j with Some a => [a] | None => [] end)
            ++ batchOf u bk js).
  rewrite length_app. destruct (addressAt u bk j); cbn [List.length]; lia.
Qed.

(** When no index is fatal, the batch holds exactly the indices that are not
    InvalidChild. *)
Lemma batchOf_length_valid (u : usage) (bk : ExtendedKey) (js : list Z) :
  firstFatal u bk js = None ->
  List.length (batchOf u bk js) =
  List.length (filter (fun j => negb (invalidChild bk j)) js).
Proof.
  induction js as [|j js IH]; [reflexivity|].
  cbn [firstFatal filter].
  change (batchOf u bk (j :: js))
    with ((match addressAt u bk j with Some a => [a] | None => [] end)
            ++ batchOf u bk js).
  unfold fatalAt, addressAt, invalidChild.
  destruct (Child bk j) as [childKey|err].
  - destruct (addr u childKey) as [a|err]; [|discriminate].
    intros Hnone. cbn. now rewrite IH.
  - destruct (IsErrInvalidChild err); [|discriminate].
    intros Hnone. cbn. now rewrite IH.
Qed.

Lemma windowEnd_bounds (n bucket i : Z) :
  0 <= n -> 0 <= windowEnd n bucket i <= n.
Proof.
  intros Hn. unfold windowEnd.
  pose proof (uint32_range (i + bucket)).
  destruct (uint32 (i + bucket) >? n) eqn:Hgt; lia.
Qed.

(** Without wrap-around the window ends at [min (i + bucket) n]. *)
Lemma windowEnd_no_wrap (n bucket i : Z) :
  0 <= i + bucket < 2 ^ 32 -> windowEnd n bucket i = Z.min (i + bucket) n.
Proof.
  intros Hsum. unfold windowEnd. rewrite uint32_small by exact Hsum.
  destruct (i + bucket >? n) eqn:Hgt; lia.
Qed.


(** One iteration of the window loop, in the vocabulary of the
    specification. *)
Lemma windowLoop_step (u : usage) (bk : ExtendedKey) (n bucket : Z)
    (fuel : nat) (i totalUsed totalUnused : Z) (w : World) :
  is_uint32 n -> 0 <= i < n ->
  windowLoop (S fuel) u bk n bucket i totalUsed totalUnused w =
  let js := indices i (windowEnd n bucket i) in
  match firstFatal u bk js with
  | Some err => (Failed err, w)
  | None =>
      let addrs := batchOf u bk js in
      let k := List.length addrs in
      match UsedAddresses (remote w) addrs with
      | (inr err, c) =>
          (Failed err, {| remote := c; trace := trace w ++ [Query addrs] |})
      | (inl bits, c) =>
          windowLoop fuel u bk n bucket (uint32 (i + bucket))
            (uint32 (totalUsed + bitCount bits true k))
            (uint32 (totalUnused + bitCount bits false k))
            {| remote := c;
               trace := trace w ++ windowEvents n bucket i addrs bits |}
      end
  end.
Proof.
  intros Hn Hi. cbn [windowLoop].
  replace (i <? n) with true by (symmetry; apply Z.ltb_lt; lia).
  fold (windowEnd n bucket i). cbv zeta.
  pose proof (windowEnd_bounds n bucket i ltac:(unfold is_uint32 in Hn; lia))
    as Hend.
  unfold bind at 1. unfold lift.
  rewrite childLoop_spec
    by (unfold is_uint32 in Hn; first [lia | apply Nat.le_refl]).
  destruct (firstFatal u bk (indices i (windowEnd n bucket i))) eqn:Hfatal;
    [reflexivity|].
  cbn [app]. unfold bind at 1. unfold rpcUsedAddresses.
  set (addrs := batchOf u bk (indices i (windowEnd n bucket i))).
  destruct (UsedAddresses (remote w) addrs) as [[bits|err] c]; [|reflexivity].
  assert (Hlen : Z.of_nat (List.length addrs) < 2 ^ 32).
  { pose proof (batchOf_length_le u bk (indices i (windowEnd n bucket i))) as Hle.
    rewrite indices_length in Hle. fold addrs in Hle.
    unfold is_uint32 in Hn. lia. }
  rewrite countBits_spec by exact Hlen.
  unfold windowEvents. cbv zeta.
  destruct (bucket =? n); unfold bind, ret, emit; cbn [remote trace].
  - reflexivity.
  - now rewrite <- app_assoc.
Qed.

(** Past the end of the range the loop returns the totals it was given. *)
Lemma windowLoop_exit (u : usage) (bk : ExtendedKey) (n bucket : Z)
    (fuel : nat) (i totalUsed totalUnused : Z) (w : World) :
  n <= i ->
  windowLoop fuel u bk n bucket i totalUsed totalUnused w =
  (Done (totalUsed, totalUnused), w).
Proof.
  intros Hi. destruct fuel; cbn [windowLoop];
    replace (i <? n) with false by (symmetry; apply Z.ltb_ge; lia);
    reflexivity.
Qed.



Lemma windowCount_next (n bucket i : Z) :
  1 <= bucket -> i < n ->
  windowCount n bucket i = S (windowCount n bucket (i + bucket)).
Proof.
  intros Hb Hi. unfold windowCount.
  replace (n - i + bucket - 1) with (n - (i + bucket) + bucket - 1 + 1 * bucket)
    by lia.
  rewrite Z.div_add by lia.
  assert (-1 <= (n - (i + bucket) + bucket - 1) / bucket).
  { assert (- bucket <= n - (i + bucket) + bucket - 1) as Hlow by lia.
    apply (Z.div_le_mono _ _ bucket) in Hlow; [|lia].
    replace (- bucket) with (-1 * bucket) in Hlow by lia.
    rewrite Z.div_mul in Hlow by lia. exact Hlow. }
  destruct (Z.eq_dec ((n - (i + bucket) + bucket - 1) / bucket) (-1)) as [E|E].
  - exfalso.
    pose proof (Z.div_pos (n - (i + bucket) + bucket - 1) bucket) as Hpos.
    assert (0 <= n - (i + bucket) + bucket - 1) by lia. lia.
  - lia.
Qed.

(** With a bucket of at least one and no wrap-around of [i + bucket], the
    window loop ends, by a return or by an error, within [windowCount]
    iterations. *)
Lemma windowLoop_terminates (u : usage) (bk : ExtendedKey) (n bucket : Z) :
  is_uint32 n -> 1 <= bucket -> n + bucket <= 2 ^ 32 ->
  forall (fuel : nat) (i totalUsed totalUnused : Z) (w : World),
    0 <= i -> (windowCount n bucket i <= fuel)%nat ->
    fst (windowLoop fuel u bk n bucket i totalUsed totalUnused w) <> OutOfFuel.
Proof.
  intros Hn Hb Hsum fuel.
  induction fuel as [|fuel IH]; intros i tu tun w Hi Hfuel.
  - destruct (Z_lt_le_dec i n) as [Hlt|Hge].
    + rewrite (windowCount_next n bucket i) in Hfuel by lia. lia.
    + rewrite windowLoop_exit by lia. discriminate.
  - destruct (Z_lt_le_dec i n) as [Hlt|Hge].
    + rewrite windowLoop_step by (try exact Hn; lia). cbv zeta.
      destruct (firstFatal u bk _); [discriminate|].
      destruct (UsedAddresses _ _) as [[bits|err] c]; [|discriminate].
      rewrite (uint32_small (i + bucket)) by lia.
      apply IH; [lia|].
      rewrite (windowCount_next n bucket i) in Hfuel by lia. lia.
    + rewrite windowLoop_exit by lia. discriminate.
Qed.

Lemma firstFatal_none (u : usage) (bk : ExtendedKey) (js : list Z) :
  (forall j, In j js -> fatalAt u bk j = None) -> firstFatal u bk js = None.
Proof.
  induction js as [|j js IH]; intros Hall; [reflexivity|].
  cbn [firstFatal]. rewrite (Hall j) by (left; reflexivity).
  apply IH. intros j' Hin. apply Hall. right. exact Hin.
Qed.

(** For [2^31 < n] and [bucket = 2^31] the window start alternates between
    [0] and [2^31]: [2^31 + 2^31] wraps to [0].  If no index is fatal and
    the node answers, no amount of fuel ends the loop. *)
Lemma windowLoop_wraps_forever (u : usage) (bk : ExtendedKey) (n : Z) :
  2 ^ 31 < n < 2 ^ 32 ->
  (forall j, fatalAt u bk j = None) ->
  (forall c addrs, exists bits c', UsedAddresses c addrs = (inl bits, c')) ->
  forall (fuel : nat) (totalUsed totalUnused : Z) (w : World),
    fst (windowLoop fuel u bk n (2 ^ 31) 0 totalUsed totalUnused w)
      = OutOfFuel /\
    fst (windowLoop fuel u bk n (2 ^ 31) (2 ^ 31) totalUsed totalUnused w)
      = OutOfFuel.
Proof.
  intros Hn Hfatal Hnode fuel.
  induction fuel as [|fuel IH]; intros tu tun w.
  - cbn [windowLoop].
    replace (0 <? n) with true by (symmetry; apply Z.ltb_lt; lia).
    replace (2 ^ 31 <? n) with true by (symmetry; apply Z.ltb_lt; lia).
    split; reflexivity.
  - split.
    + rewrite windowLoop_step by (unfold is_uint32; lia). cbv zeta.
      rewrite firstFatal_none by (intros; apply Hfatal).
      destruct (Hnode (remote w)
                  (batchOf u bk (indices 0 (windowEnd n (2 ^ 31) 0))))
        as [bits [c' Hq]].
      rewrite Hq.
      change (uint32 (0 + 2 ^ 31)) with (2 ^ 31). apply IH.
    + rewrite windowLoop_step by (unfold is_uint32; lia). cbv zeta.
      rewrite firstFatal_none by (intros; apply Hfatal).
      destruct (Hnode (remote w)
                  (batchOf u bk
                     (indices (2 ^ 31) (windowEnd n (2 ^ 31) (2 ^ 31)))))
        as [bits [c' Hq]].
      rewrite Hq.
      change (uint32 (2 ^ 31 + 2 ^ 31)) with 0. apply IH.
Qed.

End Lemmas.

(** ** Facts about the stub *)

Lemma stub_fatalAt (s : stubNode) (branch j : Z) :
  @fatalAt (Stub s) (stubUsage s) [branch] j =
  match derives s branch j with
  | Breaks => Some "derivation failed"
  | _ => None
  end.
Proof.
  unfold fatalAt. cbn. destruct (derives s branch j); reflexivity.
Qed.

Lemma stub_answers (s : stubNode) :
  (forall c, answers s c = true) ->
  forall (c : nat) (addrs : list (list Z)),
    exists bits c', @UsedAddresses (Stub s) c addrs = (inl bits, c').
Proof.
  intros Hup c addrs. cbn. unfold stubUsedAddresses. rewrite Hup.
  eexists. eexists. reflexivity.
Qed.

Lemma invalid_not_fatal `{Collaborators} (u : usage) (bk : ExtendedKey)
    (js : list Z) :
  (forall j, In j js -> invalidChild bk j = true) ->
  firstFatal u bk js = None /\ batchOf u bk js = [].
Proof.
  induction js as [|j js IH]; intros Hall; [split; reflexivity|].
  destruct IH as [IHf IHb]; [intros j' Hin; apply Hall; right; exact Hin|].
  pose proof (Hall j (or_introl eq_refl)) as Hj.
  change (batchOf u bk (j :: js))
    with ((match addressAt u bk j with Some a => [a] | None => [] end)
            ++ batchOf u bk js).
  cbn [firstFatal]. rewrite IHb, IHf.
  unfold fatalAt, addressAt. unfold invalidChild in Hj.
  destruct (Child bk j) as [childKey|err]; [discriminate|].
  rewrite Hj. split; reflexivity.
Qed.

(** ** Windows without a valid index *)

(** C1, as the code has it: a window all of whose indices are InvalidChild
    still sends its query, with an empty batch.  If the node answers, the
    window adds nothing to the totals, its line (when lines are printed)
    shows 0 used and 0 unused, and the scan goes on with the next window;
    if the query fails, its error ends the scan. *)
Theorem empty_window_still_queries `{Collaborators}
    (u : usage) (bk : ExtendedKey) (n bucket : Z) (fuel : nat)
    (i totalUsed totalUnused : Z) (w : World) :
  is_uint32 n -> is_uint32 totalUsed -> is_uint32 totalUnused ->
  0 <= i < n ->
  (forall j, In j (indices i (windowEnd n bucket i)) ->
             invalidChild bk j = true) ->
  windowLoop (S fuel) u bk n bucket i totalUsed totalUnused w =
  match UsedAddresses (remote w) [] with
  | (inr err, c) =>
      (Failed err, {| remote := c; trace := trace w ++ [Query []] |})
  | (inl bits, c) =>
      windowLoop fuel u bk n bucket (uint32 (i + bucket))
        totalUsed totalUnused
        {| remote := c;
           trace := trace w ++
                    Query [] ::
                    (if bucket =? n then []
                     else [WindowLine i (windowEnd n bucket i) 0 0
                             (fraction 0 0)]) |}
  end.
Proof.
  intros Hn Hu Hun Hi Hall.
  rewrite windowLoop_step by assumption. cbv zeta.
  destruct (invalid_not_fatal u bk _ Hall) as [Hfatal Hbatch].
  rewrite Hfatal, Hbatch.
  destruct (UsedAddresses (remote w) []) as [[bits|err] c]; [|reflexivity].
  unfold windowEvents. cbn [List.length]. cbv zeta.
  change (bitCount bits true 0) with 0. change (bitCount bits false 0) with 0.
  rewrite !Z.add_0_r.
  rewrite (uint32_small totalUsed Hu), (uint32_small totalUnused Hun).
  reflexivity.
Qed.

(** On the stub without child keys, the window [0, 3) of a bucketed scan
    over six indices. *)
Lemma empty_window_still_queries_witness :
  @windowLoop (Stub noChild) 2 (stubUsage noChild) [0] 6 3 0 0 0
    (freshWorld noChild) =
  @windowLoop (Stub noChild) 1 (stubUsage noChild) [0] 6 3 3 0 0
    (@Build_World (Stub noChild) 1%nat
       [@Query (Stub noChild) [];
        @WindowLine (Stub noChild) 0 3 0 0 (fraction 0 0)]).
Proof.
  apply (@empty_window_still_queries (Stub noChild) (stubUsage noChild) [0]
           6 3 1 0 0 0 (freshWorld noChild));
    try (unfold is_uint32; lia).
  intros j _. reflexivity.
Defined.

(** C1 as stated fails: the scan of three indices without a child key sends
    one query, the empty batch, and the node is contacted once. *)
Lemma empty_window_query_not_skipped :
  let w := snd (@branchStats (Stub noChild) 1 (stubUsage noChild) 3 0 0 0
                  (freshWorld noChild)) in
  (forall j, In j [0; 1; 2] -> @invalidChild (Stub noChild) [0] j = true)
  /\ @queries (Stub noChild) (trace w) = [[]]
  /\ @queries (Stub noChild) (trace w) <> []
  /\ remote w = 1%nat.
Proof.
  cbv zeta. split; [|split; [|split]].
  - intros j _. reflexivity.
  - vm_compute. reflexivity.
  - vm_compute. discriminate.
  - vm_compute. reflexivity.
Qed.

(** ** Invalid children and fatal errors *)

Section Skipping.
Context `{Collaborators}.
Variables (u : usage) (bk : ExtendedKey).

Lemma invalid_index (j : Z) :
  invalidChild bk j = true ->
  fatalAt u bk j = None /\ addressAt u bk j = None.
Proof.
  unfold invalidChild, fatalAt, addressAt.
  destruct (Child bk j) as [childKey|err]; [discriminate|].
  intros Hinv. rewrite Hinv. split; reflexivity.
Qed.

Lemma firstFatal_kept (js : list Z) :
  firstFatal u bk (filter (kept bk) js) = firstFatal u bk js.
Proof.
  induction js as [|j js IH]; [reflexivity|].
  cbn [filter]. destruct (kept bk j) eqn:Hkept.
  - cbn [firstFatal]. now rewrite IH.
  - apply negb_false_iff in Hkept.
    destruct (invalid_index j Hkept) as [Hfatal _].
    cbn [firstFatal]. now rewrite Hfatal.
Qed.

Lemma batchOf_kept (js : list Z) :
  batchOf u bk (filter (kept bk) js) = batchOf u bk js.
Proof.
  induction js as [|j js IH]; [reflexivity|].
  change (batchOf u bk (j :: js))
    with ((match addressAt u bk j with Some a => [a] | None => [] end)
            ++ batchOf u bk js).
  cbn [filter]. destruct (kept bk j) eqn:Hkept.
  - change (batchOf u bk (j :: filter (kept bk) js))
      with ((match addressAt u bk j with Some a => [a] | None => [] end)
              ++ batchOf u bk (filter (kept bk) js)).
    now rewrite IH.
  - apply negb_false_iff in Hkept.
    destruct (invalid_index j Hkept) as [_ Haddr].
    now rewrite Haddr, IH.
Qed.

(** The first fatal index of a window decides its error. *)
Lemma firstFatal_at (lo hi j : Z) (err : error) :
  lo <= j < hi ->
  fatalAt u bk j = Some err ->
  (forall j', lo <= j' < j -> fatalAt u bk j' = None) ->
  firstFatal u bk (indices lo hi) = Some err.
Proof.
  intros Hj Hfatal Hbefore.
  rewrite (indices_app lo j hi) by lia.
  rewrite firstFatal_app, firstFatal_none.
  - rewrite (indices_cons j hi) by lia. cbn [firstFatal]. now rewrite Hfatal.
  - intros j' Hin. apply Hbefore. now apply indices_In.
Qed.

(** [branchStats] hands on what the window loop returns. *)
Lemma branchStats_unfold (fuel : nat) (n begin bucket branch : Z)
    (w : World) :
  branchStats fuel u n begin bucket branch w =
  match Child (xpub u) branch with
  | inr err => (Failed err, w)
  | inl branchKey =>
      match windowLoop fuel u branchKey n (if bucket =? 0 then n else bucket)
              begin 0 0 w with
      | (Done (totalUsed, totalUnused), w') =>
          (Done tt,
           {| remote := remote w';
              trace := trace w' ++
                       [TotalsLine totalUsed totalUnused
                          (fraction totalUsed
                             (uint32 (totalUsed + totalUnused)))] |})
      | (Failed err, w') => (Failed err, w')
      | (OutOfFuel, w') => (OutOfFuel, w')
      end
  end.
Proof.
  unfold branchStats, bind, lift.
  destruct (Child (xpub u) branch) as [branchKey|err]; [|reflexivity].
  destruct (windowLoop fuel u branchKey n _ begin 0 0 w) as [[[tu tun]|err|] w'];
    reflexivity.
Qed.

End Skipping.

(** C4: within a window an index classified InvalidChild is skipped: the
    batch of the window, and whether the window fails, are those of the
    kept indices alone, the batch has one address per kept index, the counts
    of a completed window add up to the number of kept indices, and the scan
    goes on.  Any other error of the derivation or of the encoding ends the
    window loop at once, before the query and before anything is printed,
    and [branchStats] and [stats] return that error. *)
Theorem invalid_child_skipped_other_errors_abort `{Collaborators}
    (u : usage) (bk : ExtendedKey) (n bucket i : Z) :
  is_uint32 n -> 0 <= i < n ->
  let hi := windowEnd n bucket i in
  let js := indices i hi in
  let keptIndices := filter (kept bk) js in
  childLoop (Z.to_nat (hi - i)) u bk i hi [] =
    match firstFatal u bk keptIndices with
    | Some err => Failed err
    | None => Done (batchOf u bk keptIndices)
    end
  /\ (firstFatal u bk keptIndices = None ->
      List.length (batchOf u bk keptIndices) = List.length keptIndices)
  /\ (forall fuel totalUsed totalUnused w bits c,
        firstFatal u bk keptIndices = None ->
        UsedAddresses (remote w) (batchOf u bk keptIndices) = (inl bits, c) ->
        let k := List.length keptIndices in
        bitCount bits true k + bitCount bits false k = Z.of_nat k /\
        windowLoop (S fuel) u bk n bucket i totalUsed totalUnused w =
        windowLoop fuel u bk n bucket (uint32 (i + bucket))
          (uint32 (totalUsed + bitCount bits true k))
          (uint32 (totalUnused + bitCount bits false k))
          {| remote := c;
             trace := trace w ++
                      windowEvents n bucket i (batchOf u bk keptIndices)
                        bits |})
  /\ (forall j err fuel totalUsed totalUnused w,
        i <= j < hi ->
        fatalAt u bk j = Some err ->
        (forall j', i <= j' < j -> fatalAt u bk j' = None) ->
        windowLoop (S fuel) u bk n bucket i totalUsed totalUnused w =
        (Failed err, w))
  /\ (forall fuel begin rawBucket branch err w w',
        Child (xpub u) branch = inl bk ->
        bucket = (if rawBucket =? 0 then n else rawBucket) ->
        windowLoop fuel u bk n bucket begin 0 0 w = (Failed err, w') ->
        branchStats fuel u n begin rawBucket branch w = (Failed err, w'))
  /\ (forall fuel f err w w',
        uint32 (externalFlag f) <> 0 ->
        branchStats fuel u (uint32 (externalFlag f))
          (uint32 (externalStartFlag f)) (uint32 (bucketFlag f)) 0 w =
          (Failed err, w') ->
        stats fuel f u w = (Failed err, w')).
Proof.
  intros Hn Hi hi js keptIndices.
  assert (Hhi : 0 <= hi <= n)
    by (apply windowEnd_bounds; unfold is_uint32 in Hn; lia).
  unfold keptIndices. rewrite firstFatal_kept, batchOf_kept.
  split; [|split; [|split; [|split; [|split]]]].
  - rewrite childLoop_spec
      by (unfold is_uint32 in Hn; first [lia | apply Nat.le_refl]).
    reflexivity.
  - intros Hnone. rewrite batchOf_length_valid by exact Hnone. reflexivity.
  - intros fuel tu tun w bits c Hnone Hq.
    rewrite windowLoop_step by assumption. cbv zeta.
    fold hi. fold js. rewrite Hnone, Hq.
    rewrite batchOf_length_valid by exact Hnone.
    split; [apply bitCount_total|reflexivity].
  - intros j err fuel tu tun w Hj Hfatal Hbefore.
    rewrite windowLoop_step by assumption. cbv zeta.
    fold hi. rewrite (firstFatal_at u bk i hi j err Hj Hfatal Hbefore).
    reflexivity.
  - intros fuel begin rawBucket branch err w w' Hbranch Hbucket Hloop.
    rewrite branchStats_unfold, Hbranch, <- Hbucket, Hloop. reflexivity.
  - intros fuel f err w w' Hext Hscan.
    unfold stats, bind.
    replace (uint32 (externalFlag f) =? 0) with false
      by (symmetry; apply Z.eqb_neq; exact Hext).
    cbn [negb]. rewrite Hscan. reflexivity.
Qed.

(** On the stub [mixed], six indices in buckets of three: the window
    [0, 3) skips index 1, the window [3, 6) breaks at index 4. *)
Lemma invalid_child_skipped_other_errors_abort_witness :
  @childLoop (Stub mixed) 3 (stubUsage mixed) [0] 0 3 [] =
    Done [[0; 0]; [0; 2]]
  /\ @windowLoop (Stub mixed) 1 (stubUsage mixed) [0] 6 3 3 2 0
       (freshWorld mixed) =
     (@Failed (Stub mixed) _ "derivation failed", freshWorld mixed).
Proof.
  split.
  - exact (proj1 (@invalid_child_skipped_other_errors_abort (Stub mixed)
                    (stubUsage mixed) [0] 6 3 0
                    ltac:(unfold is_uint32; lia) ltac:(lia))).
  - destruct (@invalid_child_skipped_other_errors_abort (Stub mixed)
                (stubUsage mixed) [0] 6 3 3
                ltac:(unfold is_uint32; lia) ltac:(lia))
      as [_ [_ [_ [Habort _]]]].
    apply (Habort 4 "derivation failed" O 2 0 (freshWorld mixed)).
    + cbv. split; [discriminate|reflexivity].
    + reflexivity.
    + intros j' Hj'. assert (j' = 3) by lia. subst j'. reflexivity.
Defined.

(** ** The bitset of a window *)

Lemma bitCount_positions `{Collaborators} (bits : Bitset) (k : nat) :
  bitCount bits true k =
    Z.of_nat (List.length
                (filter (fun p => Get bits (Z.of_nat p)) (seq 0 k)))
  /\ bitCount bits false k =
    Z.of_nat (List.length
                (filter (fun p => negb (Get bits (Z.of_nat p))) (seq 0 k))).
Proof.
  unfold bitCount. split; do 2 f_equal; apply filter_ext; intros p;
    destruct (Get bits (Z.of_nat p)); reflexivity.
Qed.

(** C5: when the batch of a window has [k] addresses, the indices
    classified InvalidChild being left out, the answer of the node is read
    at the positions [0 .. k-1] of the batch: position [p] stands for the
    [p]-th address appended, whatever its index.  Set bits are counted as
    used, unset bits as unused, so used + unused = [k]; these are the counts
    added to the totals and printed in the line of the window. *)
Theorem bitset_read_by_batch_position `{Collaborators}
    (u : usage) (bk : ExtendedKey) (n bucket : Z) (fuel : nat)
    (i totalUsed totalUnused : Z) (w : World) (bits : Bitset) (c : Remote) :
  is_uint32 n -> 0 <= i < n ->
  let js := indices i (windowEnd n bucket i) in
  let addrs := batchOf u bk js in
  let k := List.length addrs in
  let used :=
    Z.of_nat (List.length
                (filter (fun p => Get bits (Z.of_nat p)) (seq 0 k))) in
  let unused :=
    Z.of_nat (List.length
                (filter (fun p => negb (Get bits (Z.of_nat p))) (seq 0 k))) in
  firstFatal u bk js = None ->
  UsedAddresses (remote w) addrs = (inl bits, c) ->
  k = List.length (filter (kept bk) js)
  /\ used + unused = Z.of_nat k
  /\ windowLoop (S fuel) u bk n bucket i totalUsed totalUnused w =
     windowLoop fuel u bk n bucket (uint32 (i + bucket))
       (uint32 (totalUsed + used)) (uint32 (totalUnused + unused))
       {| remote := c;
          trace := trace w ++
                   Query addrs ::
                   (if bucket =? n then []
                    else [WindowLine i (windowEnd n bucket i) used unused
                            (fraction used (Z.of_nat k))]) |}.
Proof.
  intros Hn Hi js addrs k used unused Hnone Hq.
  destruct (bitCount_positions bits k) as [Hused Hunused].
  fold used in Hused. fold unused in Hunused.
  split; [|split].
  - unfold k, addrs. apply batchOf_length_valid. exact Hnone.
  - rewrite <- Hused, <- Hunused. apply bitCount_total.
  - rewrite windowLoop_step by assumption. cbv zeta.
    fold js. rewrite Hnone. fold addrs. rewrite Hq.
    unfold windowEvents. cbv zeta. fold k.
    rewrite Hused, Hunused. reflexivity.
Qed.

(** On the stub [mixed], eight indices in buckets of four: the window
    [0, 4) has the batch of the indices 0, 2, 3.  The node has seen the
    addresses of index 0 and 2: they are the positions 0 and 1 of the
    answer, so 2 used and 1 unused. *)
Lemma bitset_read_by_batch_position_witness :
  snd (@windowLoop (Stub mixed) 1 (stubUsage mixed) [0] 8 4 0 0 0
         (freshWorld mixed)) =
  @Build_World (Stub mixed) 1%nat
    [@Query (Stub mixed) [[0; 0]; [0; 2]; [0; 3]];
     @WindowLine (Stub mixed) 0 4 2 1 (fraction 2 3)].
Proof.
  destruct (@bitset_read_by_batch_position (Stub mixed) (stubUsage mixed)
              [0] 8 4 O 0 0 0 (freshWorld mixed) [true; true; false] 1%nat
              ltac:(unfold is_uint32; lia) ltac:(lia)
              eq_refl eq_refl) as [_ [_ Hstep]].
  rewrite Hstep. reflexivity.
Defined.

(** ** Ten addresses in buckets of five *)

Lemma addressAt_not_fatal `{Collaborators} (u : usage) (bk : ExtendedKey)
    (j : Z) (a : Address) :
  addressAt u bk j = Some a -> fatalAt u bk j = None.
Proof.
  unfold addressAt, fatalAt. destruct (Child bk j) as [childKey|err];
    [|discriminate].
  destruct (addr u childKey); [reflexivity|discriminate].
Qed.

(** When every index of [js] has an address, the batch lists them. *)
Lemma batchOf_all `{Collaborators} (u : usage) (bk : ExtendedKey)
    (a : Z -> Address) (js : list Z) :
  (forall j, In j js -> addressAt u bk j = Some (a j)) ->
  firstFatal u bk js = None /\ batchOf u bk js = map a js.
Proof.
  induction js as [|j js IH]; intros Hall; [split; reflexivity|].
  destruct IH as [IHf IHb]; [intros j' Hin; apply Hall; right; exact Hin|].
  pose proof (Hall j (or_introl eq_refl)) as Hj.
  change (batchOf u bk (j :: js))
    with ((match addressAt u bk j with Some a => [a] | None => [] end)
            ++ batchOf u bk js).
  cbn [firstFatal]. rewrite (addressAt_not_fatal u bk j (a j) Hj), Hj, IHb.
  split; [exact IHf|reflexivity].
Qed.

(** A bitset known position by position can be counted by its description. *)
Lemma bitCount_eval `{Collaborators} (bits : Bitset) (b : bool) (k : nat)
    (g : Z -> bool) :
  (forall p, 0 <= p < Z.of_nat k -> Get bits p = g p) ->
  bitCount bits b k =
  Z.of_nat (List.length
              (filter (fun j => Bool.eqb (g (Z.of_nat j)) b) (seq 0 k))).
Proof.
  intros Hbits. unfold bitCount. do 2 f_equal.
  apply filter_ext_in. intros j Hin. apply in_seq in Hin.
  rewrite Hbits by lia. reflexivity.
Qed.

(** C8: [n = 10], [begin = 0], [bucketSize = 5] on the external branch,
    no index InvalidChild or failing, the node reporting the addresses of
    the indices 0, 2, 4, 6, 8 as used and the others as unused.  The scan
    sends two queries and prints the window [0, 5) with 3 used and 2
    unused, the window [5, 10) with 2 used and 3 unused, and the totals
    5 used and 5 unused with the ratio one half, which [%f] prints as
    0.500000. *)
Theorem ten_addresses_in_buckets_of_five `{Collaborators}
    (u : usage) (bk : ExtendedKey) (a : Z -> Address) (fuel : nat)
    (w : World) (bits1 bits2 : Bitset) (c1 c2 : Remote) :
  (2 <= fuel)%nat ->
  Child (xpub u) 0 = inl bk ->
  (forall j, 0 <= j < 10 -> addressAt u bk j = Some (a j)) ->
  UsedAddresses (remote w) (map a [0; 1; 2; 3; 4]) = (inl bits1, c1) ->
  UsedAddresses c1 (map a [5; 6; 7; 8; 9]) = (inl bits2, c2) ->
  (forall p, 0 <= p < 5 -> Get bits1 p = Z.even p) ->
  (forall p, 0 <= p < 5 -> Get bits2 p = Z.even (5 + p)) ->
  branchStats fuel u 10 0 5 0 w =
  (Done tt,
   {| remote := c2;
      trace := trace w ++
               [Query (map a [0; 1; 2; 3; 4]);
                WindowLine 0 5 3 2 (fraction 3 5);
                Query (map a [5; 6; 7; 8; 9]);
                WindowLine 5 10 2 3 (fraction 2 5);
                TotalsLine 5 5 0.5%float] |}).
Proof.
  intros Hfuel Hbranch Haddr Hq1 Hq2 Hbits1 Hbits2.
  destruct fuel as [|[|fuel]]; try lia.
  rewrite branchStats_unfold, Hbranch.
  change (5 =? 0) with false. cbv iota.
  rewrite windowLoop_step by (unfold is_uint32; lia). cbv zeta.
  change (windowEnd 10 5 0) with 5.
  change (indices 0 5) with [0; 1; 2; 3; 4].
  destruct (batchOf_all u bk a [0; 1; 2; 3; 4]) as [Hf1 Hb1].
  { intros j Hin. apply Haddr. cbn in Hin. lia. }
  rewrite Hf1, Hb1, Hq1.
  unfold windowEvents. cbv zeta.
  change (List.length (map a [0; 1; 2; 3; 4])) with 5%nat.
  rewrite (bitCount_eval bits1 true 5 Z.even) by exact Hbits1.
  rewrite (bitCount_eval bits1 false 5 Z.even) by exact Hbits1.
  cbn [seq filter Z.of_nat Z.even Bool.eqb List.length Pos.of_succ_nat
       Pos.succ].
  change (uint32 (0 + 5)) with 5. change (uint32 (0 + 3)) with 3.
  change (uint32 (0 + 2)) with 2. change (5 =? 10) with false. cbv iota.
  change (windowEnd 10 5 0) with 5.
  rewrite windowLoop_step by (unfold is_uint32; lia). cbv zeta.
  change (windowEnd 10 5 5) with 10.
  change (indices 5 10) with [5; 6; 7; 8; 9].
  destruct (batchOf_all u bk a [5; 6; 7; 8; 9]) as [Hf2 Hb2].
  { intros j Hin. apply Haddr. cbn in Hin. lia. }
  rewrite Hf2, Hb2. cbn [remote trace]. rewrite Hq2.
  unfold windowEvents. cbv zeta.
  change (List.length (map a [5; 6; 7; 8; 9])) with 5%nat.
  rewrite (bitCount_eval bits2 true 5 (fun p => Z.even (5 + p)))
    by exact Hbits2.
  rewrite (bitCount_eval bits2 false 5 (fun p => Z.even (5 + p)))
    by exact Hbits2.
  cbn [seq filter Z.of_nat Z.even Bool.eqb List.length Pos.of_succ_nat
       Pos.succ Z.add Pos.add Pos.add_carry].
  change (uint32 10) with 10. change (uint32 5) with 5.
  change (5 =? 10) with false. cbv iota.
  change (windowEnd 10 5 5) with 10.
  rewrite windowLoop_exit by lia.
  cbn [remote trace]. rewrite <- !app_assoc. reflexivity.
Qed.

(** On the stub [evenSeen]. *)
Lemma ten_addresses_in_buckets_of_five_witness :
  @branchStats (Stub evenSeen) 2 (stubUsage evenSeen) 10 0 5 0
    (freshWorld evenSeen) =
  (Done tt,
   @Build_World (Stub evenSeen) 2%nat
     [@Query (Stub evenSeen) [[0; 0]; [0; 1]; [0; 2]; [0; 3]; [0; 4]];
      @WindowLine (Stub evenSeen) 0 5 3 2 (fraction 3 5);
      @Query (Stub evenSeen) [[0; 5]; [0; 6]; [0; 7]; [0; 8]; [0; 9]];
      @WindowLine (Stub evenSeen) 5 10 2 3 (fraction 2 5);
      @TotalsLine (Stub evenSeen) 5 5 0.5%float]).
Proof.
  apply (@ten_addresses_in_buckets_of_five (Stub evenSeen)
           (stubUsage evenSeen) [0] (fun j => [0; j]) 2
           (freshWorld evenSeen)
           [true; false; true; false; true]
           [false; true; false; true; false] 1%nat 2%nat).
  - apply Nat.le_refl.
  - reflexivity.
  - intros j Hj. reflexivity.
  - reflexivity.
  - reflexivity.
  - intros p Hp.
    assert (p = 0 \/ p = 1 \/ p = 2 \/ p = 3 \/ p = 4) as Hcases by lia.
    destruct Hcases as [E|[E|[E|[E|E]]]]; subst p; reflexivity.
  - intros p Hp.
    assert (p = 0 \/ p = 1 \/ p = 2 \/ p = 3 \/ p = 4) as Hcases by lia.
    destruct Hcases as [E|[E|[E|[E|E]]]]; subst p; reflexivity.
Defined.

(** ** When the per-window lines are printed *)

Section Lines.
Context `{Collaborators}.

Lemma windowLines_app (t1 t2 : list event) :
  windowLines (t1 ++ t2) = windowLines t1 ++ windowLines t2.
Proof. unfold windowLines. apply filter_app. Qed.

(** The window loop only adds events, and none of them is a window line
    when the bucket equals [n]. *)
Lemma windowLoop_trace (u : usage) (bk : ExtendedKey) (n bucket : Z) :
  forall (fuel : nat) (i totalUsed totalUnused : Z) (w : World),
  exists evs,
    trace (snd (windowLoop fuel u bk n bucket i totalUsed totalUnused w)) =
      trace w ++ evs
    /\ (bucket = n -> windowLines evs = []).
Proof.
  induction fuel as [|fuel IH]; intros i tu tun w; cbn [windowLoop];
    destruct (i <? n).
  - exists []. now rewrite app_nil_r.
  - exists []. now rewrite app_nil_r.
  - unfold bind at 1. unfold lift.
    destruct (childLoop _ u bk i _ []) as [addrs|err|];
      try (exists []; now rewrite app_nil_r).
    unfold bind at 1. unfold rpcUsedAddresses.
    destruct (UsedAddresses (remote w) addrs) as [[bits|err] c].
    + destruct (countBits bits addrs) as [used unused].
      unfold bind at 1.
      destruct (bucket =? n) eqn:Hb; unfold ret, emit; cbn [remote trace].
      * match goal with
        | |- context [windowLoop fuel u bk n bucket ?i' ?a ?b ?w'] =>
            destruct (IH i' a b w') as [evs [Hevs Hnone]]
        end.
        exists (Query addrs :: evs). cbn [snd trace] in *.
        rewrite Hevs, <- app_assoc. split; [reflexivity|].
        intros E. cbn. now apply Hnone.
      * match goal with
        | |- context [windowLoop fuel u bk n bucket ?i' ?a ?b ?w'] =>
            destruct (IH i' a b w') as [evs [Hevs Hnone]]
        end.
        eexists (Query addrs :: _ :: evs). cbn [snd trace] in *.
        rewrite Hevs, <- !app_assoc. split; [reflexivity|].
        intros E. apply Z.eqb_neq in Hb. contradiction.
    + exists [Query addrs]. split; [reflexivity|]. intros _. reflexivity.
  - exists []. now rewrite app_nil_r.
Qed.

End Lines.

(** C7, as the code has it: the per-window lines are suppressed exactly
    when the effective bucket equals the address count [n], that is when
    [bucketSize] is 0 (and was replaced by [n]) or is [n] itself; [begin]
    plays no part.  With such a bucket no scan prints a window line,
    however it ends; with any other bucket every window whose query is
    answered prints its line right after the query.  In particular [n = 5],
    [begin = 3], [bucketSize = 0] scans the single window [3, 5), sends one
    query and prints the totals line alone. *)
Theorem window_lines_suppressed_iff_bucket_is_n `{Collaborators}
    (u : usage) (n begin bucket branch : Z) :
  is_uint32 n ->
  let effective := if bucket =? 0 then n else bucket in
  (effective = n <-> bucket = 0 \/ bucket = n)
  /\ (effective = n ->
      forall fuel w,
        windowLines (trace (snd (branchStats fuel u n begin bucket branch w)))
        = windowLines (trace w))
  /\ (effective <> n ->
      forall bk fuel i totalUsed totalUnused w bits c,
        0 <= i < n ->
        let js := indices i (windowEnd n effective i) in
        let addrs := batchOf u bk js in
        let k := List.length addrs in
        firstFatal u bk js = None ->
        UsedAddresses (remote w) addrs = (inl bits, c) ->
        exists evs,
          trace (snd (windowLoop (S fuel) u bk n effective i
                        totalUsed totalUnused w)) =
          trace w ++
          Query addrs ::
          WindowLine i (windowEnd n effective i)
            (bitCount bits true k) (bitCount bits false k)
            (fraction (bitCount bits true k) (Z.of_nat k)) :: evs)
  /\ (forall bk fuel w bits c,
        (1 <= fuel)%nat ->
        Child (xpub u) branch = inl bk ->
        firstFatal u bk [3; 4] = None ->
        UsedAddresses (remote w) (batchOf u bk [3; 4]) = (inl bits, c) ->
        let k := List.length (batchOf u bk [3; 4]) in
        branchStats fuel u 5 3 0 branch w =
        (Done tt,
         {| remote := c;
            trace := trace w ++
                     [Query (batchOf u bk [3; 4]);
                      TotalsLine (bitCount bits true k) (bitCount bits false k)
                        (fraction (bitCount bits true k)
                           (uint32 (bitCount bits true k
                                    + bitCount bits false k)))] |})).
Proof.
  intros Hn effective. split; [|split; [|split]].
  - unfold effective. destruct (bucket =? 0) eqn:Hz.
    + apply Z.eqb_eq in Hz. split; [left; exact Hz|reflexivity].
    + apply Z.eqb_neq in Hz. split; [intros E; right; exact E|].
      intros [E|E]; [contradiction|exact E].
  - intros Heff fuel w. rewrite branchStats_unfold.
    destruct (Child (xpub u) branch) as [bk|err]; [|reflexivity].
    fold effective.
    destruct (windowLoop_trace u bk n effective fuel begin 0 0 w)
      as [evs [Hevs Hnone]].
    destruct (windowLoop fuel u bk n effective begin 0 0 w)
      as [[[tu tun]|err|] w']; cbn [snd trace] in *;
      rewrite Hevs, ?windowLines_app, (Hnone Heff), ?app_nil_r; reflexivity.
  - intros Heff bk fuel i tu tun w bits c Hi js addrs k Hnone Hq.
    rewrite windowLoop_step by assumption. cbv zeta.
    fold js. rewrite Hnone. fold addrs. rewrite Hq.
    match goal with
    | |- context [windowLoop fuel u bk n effective ?i' ?a ?b ?w'] =>
        destruct (windowLoop_trace u bk n effective fuel i' a b w')
          as [evs [Hevs _]]
    end.
    exists evs. rewrite Hevs. cbn [trace]. unfold windowEvents. cbv zeta.
    replace (effective =? n) with false
      by (symmetry; apply Z.eqb_neq; exact Heff).
    fold k. rewrite <- app_assoc. reflexivity.
  - intros bk fuel w bits c Hfuel Hbranch Hnone Hq k.
    destruct fuel as [|fuel]; [lia|].
    rewrite branchStats_unfold, Hbranch.
    change (0 =? 0) with true. cbv iota.
    rewrite windowLoop_step by (unfold is_uint32; lia). cbv zeta.
    change (windowEnd 5 5 3) with 5. change (indices 3 5) with [3; 4].
    rewrite Hnone, Hq.
    change (uint32 (3 + 5)) with 8. rewrite windowLoop_exit by lia.
    unfold windowEvents. cbv zeta. change (5 =? 5) with true. cbv iota.
    fold k. cbn [remote trace].
    pose proof (bitCount_bounds bits true k) as Hu.
    pose proof (bitCount_bounds bits false k) as Hun.
    assert (Hk : (k <= 2)%nat) by (apply (batchOf_length_le u bk [3; 4])).
    rewrite !Z.add_0_l, !uint32_small by lia.
    rewrite <- app_assoc. reflexivity.
Qed.

(** On the stub [evenSeen], [n = 5], [begin = 3], [bucketSize = 0]: one
    query for the window [3, 5), then the totals line. *)
Lemma window_lines_suppressed_iff_bucket_is_n_witness :
  @branchStats (Stub evenSeen) 1 (stubUsage evenSeen) 5 3 0 0
    (freshWorld evenSeen) =
  (Done tt,
   @Build_World (Stub evenSeen) 1%nat
     [@Query (Stub evenSeen) [[0; 3]; [0; 4]];
      @TotalsLine (Stub evenSeen) 1 1 0.5%float]).
Proof.
  destruct (@window_lines_suppressed_iff_bucket_is_n (Stub evenSeen)
              (stubUsage evenSeen) 5 3 0 0 ltac:(unfold is_uint32; lia))
    as [_ [_ [_ Hexample]]].
  apply (Hexample [0] 1%nat (freshWorld evenSeen) [false; true] 1%nat);
    first [apply Nat.le_refl | reflexivity].
Defined.

(** C7 as stated fails in both directions.  With [n = 5], [begin = 0] and
    [bucketSize = 5] no window line is printed although the bucket size was
    not 0.  With [n = 10], [begin = 3] and [bucketSize = 7] the one window
    [3, 10) covers the entire range, and its line is printed. *)
Lemma window_lines_not_tied_to_zero_bucket :
  (5 <> 0 /\
   @windowLines (Stub evenSeen)
     (trace (snd (@branchStats (Stub evenSeen) 1 (stubUsage evenSeen)
                    5 0 5 0 (freshWorld evenSeen)))) = [])
  /\ (7 <> 0 /\ windowEnd 10 7 3 = 10 /\
      @branchStats (Stub evenSeen) 1 (stubUsage evenSeen) 10 3 7 0
        (freshWorld evenSeen) =
      (Done tt,
       @Build_World (Stub evenSeen) 1%nat
         [@Query (Stub evenSeen)
            [[0; 3]; [0; 4]; [0; 5]; [0; 6]; [0; 7]; [0; 8]; [0; 9]];
          @WindowLine (Stub evenSeen) 3 10 3 4 (fraction 3 7);
          @TotalsLine (Stub evenSeen) 3 4 (fraction 3 7)])).
Proof.
  split; [split|split; [|split]].
  - discriminate.
  - vm_compute. reflexivity.
  - discriminate.
  - reflexivity.
  - vm_compute. reflexivity.
Qed.

(** ** Termination of the window loop *)

(** C10: the window loop advances its start with wrapping 32-bit
    arithmetic.  For [begin <= n], a bucket of at least one and
    [n + bucket <= 2^32] it ends within [windowCount n bucket begin]
    iterations, whatever the collaborators do.  The bound on [n + bucket]
    cannot be dropped: [n = 2^31 + 1], [begin = 0], [bucket = 2^31] are
    32-bit values outside it, and with them the loop never ends unless an
    error stops it. *)
Theorem window_loop_ends_without_wrap `{Collaborators}
    (u : usage) (bk : ExtendedKey) (n begin bucket : Z) :
  is_uint32 n -> is_uint32 begin -> is_uint32 bucket ->
  begin <= n -> 1 <= bucket -> n + bucket <= 2 ^ 32 ->
  (forall fuel totalUsed totalUnused w,
      (windowCount n bucket begin <= fuel)%nat ->
      fst (windowLoop fuel u bk n bucket begin totalUsed totalUnused w)
        <> OutOfFuel)
  /\ (is_uint32 (2 ^ 31 + 1) /\ is_uint32 (2 ^ 31) /\ 0 <= 2 ^ 31 + 1 /\
      1 <= 2 ^ 31 /\ ~ (2 ^ 31 + 1 + 2 ^ 31 <= 2 ^ 32))
  /\ ((forall j, fatalAt u bk j = None) ->
      (forall c addrs, exists bits c', UsedAddresses c addrs = (inl bits, c')) ->
      forall fuel totalUsed totalUnused w,
        fst (windowLoop fuel u bk (2 ^ 31 + 1) (2 ^ 31) 0
               totalUsed totalUnused w) = OutOfFuel).
Proof.
  intros Hn Hbegin Hbucket Hle Hb Hsum. split; [|split].
  - intros fuel tu tun w Hfuel.
    apply windowLoop_terminates; try assumption.
    unfold is_uint32 in Hbegin. lia.
  - unfold is_uint32. lia.
  - intros Hfatal Hnode fuel tu tun w.
    apply (windowLoop_wraps_forever u bk (2 ^ 31 + 1) ltac:(lia)
             Hfatal Hnode fuel tu tun w).
Qed.

(** On the stub: ten indices in buckets of three take four windows, and the
    wrapping scan never ends. *)
Lemma window_loop_ends_without_wrap_witness :
  (forall fuel totalUsed totalUnused w,
      (4 <= fuel)%nat ->
      fst (@windowLoop (Stub evenSeen) fuel (stubUsage evenSeen) [0] 10 3 0
             totalUsed totalUnused w) <> OutOfFuel)
  /\ (forall fuel totalUsed totalUnused w,
        fst (@windowLoop (Stub evenSeen) fuel (stubUsage evenSeen) [0]
               (2 ^ 31 + 1) (2 ^ 31) 0 totalUsed totalUnused w) = OutOfFuel).
Proof.
  destruct (@window_loop_ends_without_wrap (Stub evenSeen)
              (stubUsage evenSeen) [0] 10 0 3) as [Hends [_ Hloops]];
    try (unfold is_uint32; lia).
  split.
  - intros fuel tu tun w Hfuel. apply Hends. exact Hfuel.
  - apply Hloops.
    + intros j. rewrite stub_fatalAt. reflexivity.
    + apply stub_answers. reflexivity.
Defined.

(** ** The exit status of the process *)

(** C2 fails on the code.  [main] exits with status 1 and a logged message
    only before the scan starts; once [stats] is called its result is
    dropped and the process exits with status 0 and nothing logged.  On the
    stub whose node answers no query the scan of one address fails with a
    transport error, and on the stub [mixed] the scan of five addresses
    fails with a derivation error: both runs exit with status 0. *)
Theorem scan_error_exits_with_status_zero :
  (forall (C : Collaborators) (fuel : nat) (f : flags),
      match @main C fuel f with
      | Exit code log out =>
          (code = 1 /\ log <> None /\ out = []) \/ (code = 0 /\ log = None)
      | Running _ => True
      end)
  /\ fst (@stats (Stub (offline evenSeen)) 1 (scanExternal 1 0 0)
            (stubUsage (offline evenSeen)) (freshWorld (offline evenSeen)))
     = @Failed (Stub (offline evenSeen)) _ "connection lost"
  /\ @main (Stub (offline evenSeen)) 1 (scanExternal 1 0 0)
     = @Exit (Stub (offline evenSeen)) 0 None
         [@Query (Stub (offline evenSeen)) [[0; 0]]]
  /\ fst (@stats (Stub mixed) 1 (scanExternal 5 0 0)
            (stubUsage mixed) (freshWorld mixed))
     = @Failed (Stub mixed) _ "derivation failed"
  /\ @main (Stub mixed) 1 (scanExternal 5 0 0)
     = @Exit (Stub mixed) 0 None [].
Proof.
  split; [|repeat split; vm_compute; reflexivity].
  intros C fuel f. unfold main, logFatal.
  destruct ((externalFlag f =? 0) && (internalFlag f =? 0));
    [left; repeat split; discriminate|].
  destruct (externalStartFlag f >? externalFlag f);
    [left; repeat split; discriminate|].
  destruct (internalStartFlag f >? internalFlag f);
    [left; repeat split; discriminate|].
  destruct (String.eqb (xpubFlag f) EmptyString);
    [left; repeat split; discriminate|].
  destruct (NewKeyFromString _ _) as [key|err];
    [|left; repeat split; discriminate].
  destruct (tlsConfig f "") as [tc|err];
    [|left; repeat split; discriminate].
  destruct (Dial _ tc _ _) as [c|err];
    [|left; repeat split; discriminate].
  destruct (stats fuel f _ _) as [[[]|err|] w];
    first [exact I | right; split; reflexivity].
Qed.

(** ** Scans without wrap-around *)


Lemma noWrap_of_bound (n bucket begin : Z) :
  1 <= bucket -> begin <= n -> n + bucket <= 2 ^ 32 -> noWrap n bucket begin.
Proof.
  intros Hb Hle Hsum. unfold noWrap, windowCount.
  rewrite Z2Nat.id by (apply Z.div_pos; lia).
  pose proof (Z.mul_div_le (n - begin + bucket - 1) bucket ltac:(lia)).
  lia.
Qed.

(** From [begin = 0] no bucket wraps while [n] stays within the indices
    that are not hardened, [n <= 2^31]. *)
Lemma noWrap_from_zero (n bucket : Z) :
  is_uint32 bucket -> 1 <= bucket -> n <= 2 ^ 31 -> noWrap n bucket 0.
Proof.
  intros Hb Hpos Hn. unfold is_uint32 in Hb. unfold noWrap, windowCount.
  set (q := (n - 0 + bucket - 1) / bucket).
  replace (Z.of_nat (Z.to_nat q)) with (Z.max 0 q) by lia.
  pose proof (Z.mul_div_le (n - 0 + bucket - 1) bucket ltac:(lia)) as Hle.
  fold q in Hle.
  destruct (Z_le_gt_dec bucket (2 ^ 31)) as [Hsmall|Hbig]; [nia|].
  assert (q < 2) by (apply Z.div_lt_upper_bound; lia).
  nia.
Qed.

Lemma noWrap_next (n bucket i : Z) :
  1 <= bucket -> i < n -> noWrap n bucket i ->
  i + bucket < 2 ^ 32 /\ noWrap n bucket (i + bucket).
Proof.
  intros Hb Hi Hw. unfold noWrap in *.
  rewrite (windowCount_next n bucket i) in Hw by lia.
  rewrite Nat2Z.inj_succ in Hw. split; nia.
Qed.

Section NoWrap.
Context `{Collaborators}.
Variables (u : usage) (bk : ExtendedKey) (n bucket : Z).
Hypothesis Hn : is_uint32 n.
Hypothesis Hbucket : 1 <= bucket.

Lemma validCount_nil (lo hi : Z) : hi <= lo -> validCount bk lo hi = 0.
Proof. intros Hle. unfold validCount. now rewrite indices_nil. Qed.

Lemma validCount_split (lo mid hi : Z) :
  lo <= mid <= hi ->
  validCount bk lo hi = validCount bk lo mid + validCount bk mid hi.
Proof.
  intros Hmid. unfold validCount.
  rewrite (indices_app lo mid hi) by exact Hmid.
  rewrite filter_app, length_app. lia.
Qed.

Lemma sumUsed_app (t1 t2 : list event) :
  sumUsed (t1 ++ t2) = sumUsed t1 + sumUsed t2.
Proof.
  induction t1 as [|e t1 IH]; [reflexivity|].
  cbn [app sumUsed fold_right]. fold (sumUsed (t1 ++ t2)). fold (sumUsed t1).
  rewrite IH. destruct e; lia.
Qed.

Lemma sumUnused_app (t1 t2 : list event) :
  sumUnused (t1 ++ t2) = sumUnused t1 + sumUnused t2.
Proof.
  induction t1 as [|e t1 IH]; [reflexivity|].
  cbn [app sumUnused fold_right].
  fold (sumUnused (t1 ++ t2)). fold (sumUnused t1).
  rewrite IH. destruct e; lia.
Qed.

(** The window that starts at [i < n], when [i + bucket] does not wrap. *)
Lemma window_in_range (i : Z) :
  0 <= i < n -> i + bucket < 2 ^ 32 ->
  let hi := windowEnd n bucket i in
  i < hi <= n /\ hi = Z.min (i + bucket) n /\
  validCount bk hi n = validCount bk (i + bucket) n.
Proof.
  intros Hi Hsum hi. unfold hi. rewrite windowEnd_no_wrap by lia.
  split; [lia|]. split; [reflexivity|].
  destruct (Z_le_gt_dec (i + bucket) n) as [Hle|Hgt].
  - now rewrite Z.min_l by lia.
  - rewrite Z.min_r by lia. now rewrite !validCount_nil by lia.
Qed.

(** A scan whose window starts do not wrap ends within [windowCount]
    iterations.  When it returns, the totals have grown by the number of
    indices of [i, n) not classified InvalidChild, each line printed has the
    counts of its window, and the totals are the sums over the lines. *)
Lemma windowLoop_counts :
  forall (fuel : nat) (i totalUsed totalUnused : Z) (w : World),
    0 <= i -> noWrap n bucket i ->
    0 <= totalUsed -> 0 <= totalUnused ->
    totalUsed + totalUnused + Z.max 0 (n - i) < 2 ^ 32 ->
    (windowCount n bucket i <= fuel)%nat ->
    match windowLoop fuel u bk n bucket i totalUsed totalUnused w with
    | (Done (totalUsed', totalUnused'), w') =>
        exists evs,
          trace w' = trace w ++ evs
          /\ 0 <= totalUsed' /\ 0 <= totalUnused'
          /\ totalUsed' + totalUnused' =
             totalUsed + totalUnused + validCount bk i n
          /\ (bucket <> n ->
              totalUsed' = totalUsed + sumUsed evs /\
              totalUnused' = totalUnused + sumUnused evs)
          /\ Forall (windowLineOk bk) evs
    | (Failed _, _) => True
    | (OutOfFuel, _) => False
    end.
Proof.
  induction fuel as [|fuel IH]; intros i tu tun w Hi Hw Htu Htun Hsum Hfuel.
  - destruct (Z_lt_le_dec i n) as [Hlt|Hge].
    + rewrite (windowCount_next n bucket i) in Hfuel by lia. lia.
    + rewrite windowLoop_exit by lia. exists [].
      rewrite app_nil_r, validCount_nil by lia.
      repeat split; cbn [sumUsed sumUnused fold_right]; try lia.
      constructor.
  - destruct (Z_lt_le_dec i n) as [Hlt|Hge].
    + destruct (noWrap_next n bucket i Hbucket Hlt Hw) as [Hnext Hw'].
      destruct (window_in_range i ltac:(lia) Hnext) as [Hhi [Hmin Hrest]].
      rewrite windowLoop_step by (try exact Hn; lia). cbv zeta.
      set (hi := windowEnd n bucket i) in *.
      destruct (firstFatal u bk (indices i hi)) eqn:Hfatal; [exact I|].
      set (addrs := batchOf u bk (indices i hi)).
      destruct (UsedAddresses (remote w) addrs) as [[bits|err] c]; [|exact I].
      set (k := List.length addrs).
      assert (Hk : Z.of_nat k = validCount bk i hi).
      { unfold k, addrs, validCount.
        now rewrite (batchOf_length_valid u bk _ Hfatal). }
      assert (Hkle : Z.of_nat k <= hi - i).
      { pose proof (batchOf_length_le u bk (indices i hi)) as Hle.
        rewrite indices_length in Hle. fold addrs in Hle. fold k in Hle. lia. }
      pose proof (bitCount_bounds bits true k) as Hused.
      pose proof (bitCount_bounds bits false k) as Hunused.
      pose proof (bitCount_total bits k) as Htotal.
      rewrite (uint32_small (i + bucket)) by lia.
      rewrite (uint32_small (tu + _)) by lia.
      rewrite (uint32_small (tun + _)) by lia.
      rewrite (windowCount_next n bucket i) in Hfuel by lia.
      match goal with
      | |- context [windowLoop fuel u bk n bucket ?i' ?a ?b ?w'] =>
          specialize (IH i' a b w' ltac:(lia) Hw' ltac:(lia) ltac:(lia)
                        ltac:(lia) ltac:(lia));
          destruct (windowLoop fuel u bk n bucket i' a b w')
            as [[[tu' tun']|err|] w'']
      end; [|exact I|exact IH].
      destruct IH as [evs [Htrace [Htu' [Htun' [Hsum' [Hlines Hok]]]]]].
      cbn [trace] in Htrace.
      exists (windowEvents n bucket i addrs bits ++ evs).
      rewrite Htrace, <- app_assoc.
      split; [reflexivity|]. split; [exact Htu'|]. split; [exact Htun'|].
      split; [|split].
      * rewrite (validCount_split i hi n) by lia. rewrite Hrest. lia.
      * intros Hneq. destruct (Hlines Hneq) as [Hu' Hun'].
        rewrite sumUsed_app, sumUnused_app. unfold windowEvents. cbv zeta.
        replace (bucket =? n) with false
          by (symmetry; apply Z.eqb_neq; exact Hneq).
        fold k. cbn [sumUsed sumUnused fold_right]. lia.
      * apply Forall_app. split; [|exact Hok].
        unfold windowEvents. cbv zeta. fold k. fold hi.
        destruct (bucket =? n); repeat constructor.
        cbn [windowLineOk]. lia.
    + rewrite windowLoop_exit by lia. exists [].
      rewrite app_nil_r, validCount_nil by lia.
      repeat split; cbn [sumUsed sumUnused fold_right]; try lia.
      constructor.
Qed.

End NoWrap.

(** The invariant of the scan, for window starts that do not wrap: the scan
    ends within [windowCount] iterations; when it returns, every window
    line has used + unused equal to the number of indices of its window not
    classified InvalidChild, the totals are the sums of the counts of the
    window lines (when lines are printed), and total used + unused is the
    number of indices of [begin, n) not classified InvalidChild. *)
Theorem branch_totals_count_valid_indices `{Collaborators}
    (u : usage) (bk : ExtendedKey) (n begin bucket branch : Z)
    (fuel : nat) (w : World) :
  is_uint32 n -> is_uint32 begin ->
  let effective := if bucket =? 0 then n else bucket in
  1 <= effective -> noWrap n effective begin ->
  Child (xpub u) branch = inl bk ->
  (windowCount n effective begin <= fuel)%nat ->
  match branchStats fuel u n begin bucket branch w with
  | (Done _, w') =>
      exists evs totalUsed totalUnused,
        trace w' =
          trace w ++ evs ++
          [TotalsLine totalUsed totalUnused
             (fraction totalUsed (totalUsed + totalUnused))]
        /\ Forall (windowLineOk bk) evs
        /\ (effective <> n ->
            totalUsed = sumUsed evs /\ totalUnused = sumUnused evs)
        /\ totalUsed + totalUnused = validCount bk begin n
  | (Failed _, _) => True
  | (OutOfFuel, _) => False
  end.
Proof.
  intros Hn Hbegin effective Heff Hw Hbranch Hfuel.
  rewrite branchStats_unfold, Hbranch. fold effective.
  unfold is_uint32 in Hn, Hbegin.
  pose proof (windowLoop_counts u bk n effective Hn Heff fuel begin 0 0 w
                ltac:(lia) Hw ltac:(lia) ltac:(lia) ltac:(lia) Hfuel)
    as Hcounts.
  destruct (windowLoop fuel u bk n effective begin 0 0 w)
    as [[[tu tun]|err|] w']; [|exact I|exact Hcounts].
  destruct Hcounts as [evs [Htrace [Htu [Htun [Hsum [Hlines Hok]]]]]].
  exists evs, tu, tun. cbn [trace].
  assert (Hvalid : validCount bk begin n <= n).
  { unfold validCount.
    pose proof (filter_length_le (fun j => negb (invalidChild bk j))
                  (indices begin n)) as Hle.
    rewrite indices_length in Hle. lia. }
  rewrite uint32_small by lia.
  rewrite Htrace, <- app_assoc.
  split; [reflexivity|]. split; [exact Hok|]. split; [|lia].
  intros Hneq. destruct (Hlines Hneq). lia.
Qed.

(** On the stub [evenSeen]: ten indices in buckets of five. *)
Lemma branch_totals_count_valid_indices_witness :
  match @branchStats (Stub evenSeen) 2 (stubUsage evenSeen) 10 0 5 0
          (freshWorld evenSeen) with
  | (Done _, w') =>
      exists evs totalUsed totalUnused,
        trace w' =
          evs ++
          [@TotalsLine (Stub evenSeen) totalUsed totalUnused
             (fraction totalUsed (totalUsed + totalUnused))]
        /\ Forall (@windowLineOk (Stub evenSeen) [0]) evs
        /\ (5 <> 10 ->
            totalUsed = @sumUsed (Stub evenSeen) evs /\
            totalUnused = @sumUnused (Stub evenSeen) evs)
        /\ totalUsed + totalUnused = @validCount (Stub evenSeen) [0] 0 10
  | (Failed _, _) => True
  | (OutOfFuel, _) => False
  end.
Proof.
  exact (@branch_totals_count_valid_indices (Stub evenSeen)
           (stubUsage evenSeen) [0] 10 0 5 0 2 (freshWorld evenSeen)
           ltac:(unfold is_uint32; lia) ltac:(unfold is_uint32; lia)
           ltac:(cbv; discriminate) ltac:(reflexivity) eq_refl
           (Nat.le_refl 2)).
Defined.

(** ** Bucketing invariance without wrap-around *)

Section Invariance.
Context `{Collaborators}.
Variables (u : usage) (bk : ExtendedKey) (seenBy : Address -> bool).

Lemma seenCount_app (b : bool) (l1 l2 : list Address) :
  seenCount seenBy b (l1 ++ l2) = seenCount seenBy b l1 + seenCount seenBy b l2.
Proof. unfold seenCount. rewrite filter_app, length_app. lia. Qed.

(** A bitset that answers position by position is counted as the batch. *)
Lemma bitCount_answers (bits : Bitset) (b : bool) (addrs : list Address) :
  (forall p a, nth_error addrs p = Some a ->
               Get bits (Z.of_nat p) = seenBy a) ->
  bitCount bits b (List.length addrs) = seenCount seenBy b addrs.
Proof.
  induction addrs as [|a addrs IH] using rev_ind; intros Hbits;
    [reflexivity|].
  rewrite length_app, Nat.add_comm. cbn [List.length Nat.add].
  rewrite bitCount_S, seenCount_app, IH.
  - rewrite (Hbits (List.length addrs) a)
      by (rewrite nth_error_app2, Nat.sub_diag by apply Nat.le_refl;
          reflexivity).
    unfold seenCount at 3. cbn [filter].
    destruct (Bool.eqb (seenBy a) b); cbn [List.length]; lia.
  - intros p a' Hp. apply Hbits. rewrite nth_error_app1; [exact Hp|].
    apply nth_error_Some. rewrite Hp. discriminate.
Qed.

Variables (n bucket : Z).
Hypothesis Hn : is_uint32 n.
Hypothesis Hbucket : 1 <= bucket.
Hypothesis Hnode : answersBy seenBy.

(** With a node that answers by [seenBy] and no fatal index, a scan whose
    window starts do not wrap returns the counts of the whole range,
    whatever the bucket. *)
Lemma windowLoop_closed :
  forall (fuel : nat) (i totalUsed totalUnused : Z) (w : World),
    0 <= i -> noWrap n bucket i ->
    0 <= totalUsed -> 0 <= totalUnused ->
    totalUsed + totalUnused + Z.max 0 (n - i) < 2 ^ 32 ->
    (windowCount n bucket i <= fuel)%nat ->
    (forall j, i <= j < n -> fatalAt u bk j = None) ->
    exists w',
      windowLoop fuel u bk n bucket i totalUsed totalUnused w =
      (Done (totalUsed
             + seenCount seenBy true (batchOf u bk (indices i n)),
             totalUnused
             + seenCount seenBy false (batchOf u bk (indices i n))), w')
      /\ exists evs, trace w' = trace w ++ evs.
Proof.
  induction fuel as [|fuel IH];
    intros i tu tun w Hi Hw Htu Htun Hsum Hfuel Hfatal.
  - destruct (Z_lt_le_dec i n) as [Hlt|Hge].
    + rewrite (windowCount_next n bucket i) in Hfuel by lia. lia.
    + rewrite windowLoop_exit by lia. rewrite indices_nil by lia.
      exists w. cbn. rewrite !Z.add_0_r. split; [reflexivity|].
      exists []. now rewrite app_nil_r.
  - destruct (Z_lt_le_dec i n) as [Hlt|Hge].
    + destruct (noWrap_next n bucket i Hbucket Hlt Hw) as [Hnext Hw'].
      pose proof (windowEnd_no_wrap n bucket i ltac:(lia)) as Hend.
      rewrite windowLoop_step by (try exact Hn; lia). cbv zeta.
      set (hi := windowEnd n bucket i) in *.
      assert (Hhi : i < hi <= n) by lia.
      rewrite firstFatal_none
        by (intros j Hin; apply Hfatal; apply indices_In in Hin; lia).
      set (addrs := batchOf u bk (indices i hi)).
      destruct (Hnode (remote w) addrs) as [bits [c [Hq Hbits]]].
      rewrite Hq.
      rewrite !(bitCount_answers bits _ addrs Hbits).
      assert (Hkle : Z.of_nat (List.length addrs) <= hi - i).
      { pose proof (batchOf_length_le u bk (indices i hi)) as Hle.
        rewrite indices_length in Hle. fold addrs in Hle. lia. }
      assert (Hparts : seenCount seenBy true addrs
                       + seenCount seenBy false addrs
                       = Z.of_nat (List.length addrs)).
      { rewrite <- !(bitCount_answers bits _ addrs Hbits).
        apply bitCount_total. }
      assert (0 <= seenCount seenBy true addrs) by (unfold seenCount; lia).
      assert (0 <= seenCount seenBy false addrs) by (unfold seenCount; lia).
      rewrite (uint32_small (i + bucket)) by lia.
      rewrite (uint32_small (tu + _)) by lia.
      rewrite (uint32_small (tun + _)) by lia.
      rewrite (windowCount_next n bucket i) in Hfuel by lia.
      match goal with
      | |- context [windowLoop fuel u bk n bucket ?i' ?a ?b ?w'] =>
          destruct (IH i' a b w' ltac:(lia) Hw' ltac:(lia) ltac:(lia)
                      ltac:(lia) ltac:(lia)
                      ltac:(intros j Hj; apply Hfatal; lia))
            as [w'' [Hrun [evs Hevs]]]
      end.
      exists w''. rewrite Hrun. split.
      * assert (Hrest : batchOf u bk (indices hi n)
                        = batchOf u bk (indices (i + bucket) n)).
        { destruct (Z_le_gt_dec (i + bucket) n) as [Hle|Hgt].
          - replace hi with (i + bucket) by lia. reflexivity.
          - now rewrite !indices_nil by lia. }
        rewrite (indices_app i hi n) by lia.
        rewrite batchOf_app, !seenCount_app. fold addrs. rewrite Hrest.
        rewrite !Z.add_assoc. reflexivity.
      * cbn [trace] in Hevs. eexists. rewrite Hevs, <- app_assoc. reflexivity.
    + rewrite windowLoop_exit by lia. rewrite indices_nil by lia.
      exists w. cbn. rewrite !Z.add_0_r. split; [reflexivity|].
      exists []. now rewrite app_nil_r.
Qed.

End Invariance.

Lemma windowCount_single (n : Z) : 1 <= n -> windowCount n n 0 = 1%nat.
Proof.
  intros Hn. unfold windowCount.
  rewrite <- (Z.div_unique_pos (n - 0 + n - 1) n 1 (n - 1)) by lia.
  reflexivity.
Qed.

Lemma stub_answersBy (s : stubNode) :
  (forall c, answers s c = true) -> @answersBy (Stub s) (seen s).
Proof.
  intros Hup c addrs. exists (map (seen s) addrs), (S c). split.
  - cbn. unfold stubUsedAddresses. now rewrite Hup.
  - intros p a Hp. cbn. rewrite Nat2Z.id.
    apply nth_error_nth. now apply map_nth_error.
Qed.

(** Bucketing invariance, for window starts that do not wrap: over
    [0, n), with a fixed assignment of answers per address and no fatal
    index, the scan with [bucketSize = 0] and the scan with any
    [bucketSize > 0] both complete and print the same totals line, the
    counts of the addresses of the whole range. *)
Theorem bucketing_invariance_without_wrap `{Collaborators}
    (u : usage) (bk : ExtendedKey) (seenBy : Address -> bool)
    (n bucket branch : Z) (w0 wB : World) :
  is_uint32 n -> 1 <= bucket -> noWrap n bucket 0 ->
  Child (xpub u) branch = inl bk ->
  answersBy seenBy ->
  (forall j, 0 <= j < n -> fatalAt u bk j = None) ->
  let totalUsed := seenCount seenBy true (batchOf u bk (indices 0 n)) in
  let totalUnused := seenCount seenBy false (batchOf u bk (indices 0 n)) in
  let line := TotalsLine totalUsed totalUnused
                (fraction totalUsed (totalUsed + totalUnused)) in
  (exists w' evs,
      branchStats 1 u n 0 0 branch w0 = (Done tt, w') /\
      trace w' = trace w0 ++ evs ++ [line])
  /\ (exists w' evs,
        branchStats (windowCount n bucket 0) u n 0 bucket branch wB =
          (Done tt, w') /\
        trace w' = trace wB ++ evs ++ [line]).
Proof.
  intros Hn Hbucket Hw Hbranch Hnode Hfatal totalUsed totalUnused line.
  assert (Hrange : 0 <= totalUsed /\ 0 <= totalUnused
                   /\ totalUsed + totalUnused < 2 ^ 32).
  { unfold totalUsed, totalUnused, seenCount.
    pose proof (batchOf_length_le u bk (indices 0 n)) as Hle.
    rewrite indices_length in Hle.
    assert (Hparts : forall l : list Address,
               (List.length (filter (fun a => Bool.eqb (seenBy a) true) l)
                + List.length (filter (fun a => Bool.eqb (seenBy a) false) l)
                = List.length l)%nat).
    { induction l as [|a l IH]; [reflexivity|].
      cbn [filter]. destruct (seenBy a); cbn [Bool.eqb List.length]; lia. }
    specialize (Hparts (batchOf u bk (indices 0 n))).
    unfold is_uint32 in Hn. lia. }
  assert (Hfinish : forall fuel b w,
             1 <= b -> noWrap n b 0 -> (windowCount n b 0 <= fuel)%nat ->
             exists w' evs,
               (let (o, w1) := windowLoop fuel u bk n b 0 0 0 w in
                match o with
                | Done (tu, tun) =>
                    (Done tt,
                     {| remote := remote w1;
                        trace := trace w1 ++
                                 [TotalsLine tu tun
                                    (fraction tu (uint32 (tu + tun)))] |})
                | Failed err => (Failed err, w1)
                | OutOfFuel => (OutOfFuel, w1)
                end) = (Done tt, w')
               /\ trace w' = trace w ++ evs ++ [line]).
  { intros fuel b w Hb Hwb Hfuel.
    destruct (windowLoop_closed u bk seenBy n b Hn Hb Hnode fuel 0 0 0 w
                ltac:(lia) Hwb ltac:(lia) ltac:(lia)
                ltac:(unfold is_uint32 in Hn; lia) Hfuel Hfatal)
      as [w1 [Hrun [evs Hevs]]].
    rewrite Hrun, !Z.add_0_l. fold totalUsed. fold totalUnused.
    rewrite uint32_small by lia.
    eexists. exists evs. split; [reflexivity|].
    cbn [trace]. rewrite Hevs, <- app_assoc. reflexivity. }
  split.
  - rewrite branchStats_unfold, Hbranch. change (0 =? 0) with true. cbv iota.
    destruct (Z_le_gt_dec n 0) as [Hzero|Hpos].
    + rewrite windowLoop_exit by lia.
      assert (Hnone : batchOf u bk (indices 0 n) = [])
        by (rewrite indices_nil by lia; reflexivity).
      eexists. exists []. split; [reflexivity|].
      cbn [trace app]. unfold line, totalUsed, totalUnused.
      rewrite Hnone. reflexivity.
    + apply Hfinish; [lia| |rewrite windowCount_single by lia; lia].
      unfold noWrap. rewrite windowCount_single by lia.
      unfold is_uint32 in Hn. lia.
  - rewrite branchStats_unfold, Hbranch.
    replace (bucket =? 0) with false by (symmetry; apply Z.eqb_neq; lia).
    apply Hfinish; [exact Hbucket|exact Hw|apply Nat.le_refl].
Qed.

(** On the stub [evenSeen]: ten indices, at once and in buckets of five. *)
Lemma bucketing_invariance_without_wrap_witness :
  let line :=
    @TotalsLine (Stub evenSeen)
      (@seenCount (Stub evenSeen) (seen evenSeen) true
         (@batchOf (Stub evenSeen) (stubUsage evenSeen) [0] (indices 0 10)))
      (@seenCount (Stub evenSeen) (seen evenSeen) false
         (@batchOf (Stub evenSeen) (stubUsage evenSeen) [0] (indices 0 10)))
      0.5%float in
  (exists w' evs,
      @branchStats (Stub evenSeen) 1 (stubUsage evenSeen) 10 0 0 0
        (freshWorld evenSeen) = (Done tt, w') /\
      trace w' = evs ++ [line])
  /\ (exists w' evs,
        @branchStats (Stub evenSeen) 2 (stubUsage evenSeen) 10 0 5 0
          (freshWorld evenSeen) = (Done tt, w') /\
        trace w' = evs ++ [line]).
Proof.
  exact (@bucketing_invariance_without_wrap (Stub evenSeen)
           (stubUsage evenSeen) [0] (seen evenSeen) 10 5 0
           (freshWorld evenSeen) (freshWorld evenSeen)
           ltac:(unfold is_uint32; lia) ltac:(lia) ltac:(reflexivity)
           eq_refl (stub_answersBy evenSeen (fun _ => eq_refl))
           (fun j _ => eq_trans (stub_fatalAt evenSeen 0 j) eq_refl)).
Defined.

(** ** Branches without a valid address *)


Lemma windowLoop_empty `{Collaborators} (u : usage) (bk : ExtendedKey)
    (n bucket : Z) :
  is_uint32 n -> 1 <= bucket ->
  (forall c, exists bits c', UsedAddresses c [] = (inl bits, c')) ->
  forall (fuel : nat) (i : Z) (w : World),
    0 <= i -> noWrap n bucket i ->
    (windowCount n bucket i <= fuel)%nat ->
    (forall j, i <= j < n -> invalidChild bk j = true) ->
    exists w' evs,
      windowLoop fuel u bk n bucket i 0 0 w = (Done (0, 0), w')
      /\ trace w' = trace w ++ evs
      /\ Forall emptyWindowEvent evs.
Proof.
  intros Hn Hbucket Hnode.
  induction fuel as [|fuel IH]; intros i w Hi Hw Hfuel Hinv.
  - destruct (Z_lt_le_dec i n) as [Hlt|Hge].
    + rewrite (windowCount_next n bucket i) in Hfuel by lia. lia.
    + rewrite windowLoop_exit by lia. exists w, [].
      rewrite app_nil_r. repeat split. constructor.
  - destruct (Z_lt_le_dec i n) as [Hlt|Hge].
    + destruct (noWrap_next n bucket i Hbucket Hlt Hw) as [Hnext Hw'].
      pose proof (windowEnd_no_wrap n bucket i ltac:(lia)) as Hend.
      rewrite windowLoop_step by (try exact Hn; lia). cbv zeta.
      destruct (invalid_not_fatal u bk (indices i (windowEnd n bucket i)))
        as [Hfatal Hbatch].
      { intros j Hin. apply Hinv. apply indices_In in Hin. lia. }
      rewrite Hfatal, Hbatch.
      destruct (Hnode (remote w)) as [bits [c Hq]]. rewrite Hq.
      cbn [List.length]. change (bitCount bits true 0) with 0.
      change (bitCount bits false 0) with 0.
      change (uint32 (0 + 0)) with 0.
      rewrite (uint32_small (i + bucket)) by lia.
      rewrite (windowCount_next n bucket i) in Hfuel by lia.
      match goal with
      | |- context [windowLoop fuel u bk n bucket ?i' 0 0 ?w'] =>
          destruct (IH i' w' ltac:(lia) Hw' ltac:(lia)
                      ltac:(intros j Hj; apply Hinv; lia))
            as [w'' [evs [Hrun [Htrace Hall]]]]
      end.
      exists w'', (windowEvents n bucket i [] bits ++ evs).
      rewrite Hrun. cbn [trace] in Htrace. rewrite Htrace, <- app_assoc.
      repeat split. apply Forall_app. split; [|exact Hall].
      unfold windowEvents. cbn [List.length]. cbv zeta.
      change (bitCount bits true 0) with 0.
      change (bitCount bits false 0) with 0.
      destruct (bucket =? n).
      * constructor; [left; reflexivity|constructor].
      * constructor; [left; reflexivity|].
        constructor; [|constructor].
        right. eexists. eexists. reflexivity.
    + rewrite windowLoop_exit by lia. exists w, [].
      rewrite app_nil_r. repeat split. constructor.
Qed.

(** A branch without a valid address, for window starts that do not wrap.
    When the range is empty ([n <= begin]) the scan prints the totals line
    alone; when every index of [begin, n) is classified InvalidChild and the
    node answers the empty queries, the scan completes.  In both cases the
    totals are 0 used and 0 unused, the ratio handed to [%f] is
    [float64(0)/float64(0)], which is NaN, and every window line printed
    shows 0 used, 0 unused and the same NaN. *)
Theorem empty_branch_reports_nan `{Collaborators}
    (u : usage) (bk : ExtendedKey) (n begin bucket branch : Z)
    (fuel : nat) (w : World) :
  is_uint32 n -> is_uint32 begin ->
  let effective := if bucket =? 0 then n else bucket in
  n <= begin \/
  (1 <= effective /\ noWrap n effective begin /\
   (windowCount n effective begin <= fuel)%nat /\
   (forall c, exists bits c', UsedAddresses c [] = (inl bits, c'))) ->
  Child (xpub u) branch = inl bk ->
  (forall j, begin <= j < n -> invalidChild bk j = true) ->
  exists w' evs,
    branchStats fuel u n begin bucket branch w = (Done tt, w')
    /\ trace w' = trace w ++ evs ++ [TotalsLine 0 0 (fraction 0 0)]
    /\ PrimFloat.is_nan (fraction 0 0) = true
    /\ Forall emptyWindowEvent evs
    /\ (n <= begin -> evs = []).
Proof.
  intros Hn Hbegin effective Hcase Hbranch Hinv.
  rewrite branchStats_unfold, Hbranch. fold effective.
  destruct (Z_le_gt_dec n begin) as [Hempty|Hsome].
  - rewrite windowLoop_exit by lia.
    eexists. exists []. split; [reflexivity|]. cbn [trace app].
    repeat split. constructor.
  - destruct Hcase as [Hle|[Heff [Hw [Hfuel Hnode]]]]; [lia|].
    destruct (windowLoop_empty u bk n effective Hn Heff Hnode fuel begin w
                ltac:(unfold is_uint32 in Hbegin; lia) Hw Hfuel Hinv)
      as [w' [evs [Hrun [Htrace Hall]]]].
    rewrite Hrun. eexists. exists evs. split; [reflexivity|].
    cbn [trace]. rewrite Htrace, <- app_assoc.
    repeat split; [exact Hall|lia].
Qed.

(** On the stub without child keys: six indices in buckets of three. *)
Lemma empty_branch_reports_nan_witness :
  exists w' evs,
    @branchStats (Stub noChild) 2 (stubUsage noChild) 6 0 3 0
      (freshWorld noChild) = (Done tt, w')
    /\ trace w' = evs ++ [@TotalsLine (Stub noChild) 0 0 (fraction 0 0)]
    /\ PrimFloat.is_nan (fraction 0 0) = true
    /\ Forall (@emptyWindowEvent (Stub noChild)) evs
    /\ (6 <= 0 -> evs = []).
Proof.
  apply (@empty_branch_reports_nan (Stub noChild) (stubUsage noChild) [0]
           6 0 3 0 2 (freshWorld noChild)).
  - unfold is_uint32. lia.
  - unfold is_uint32. lia.
  - right. split; [cbv; discriminate|].
    split; [reflexivity|]. split; [apply Nat.le_refl|].
    intros c. apply (stub_answers noChild (fun _ => eq_refl)).
  - reflexivity.
  - intros j _. reflexivity.
Defined.

(** ** Wrap-around of the window bounds

    [max := i + bucket] and [i += bucket] are computed in [uint32].  The
    inputs below keep the capacity asked of [make] at 0 or 1. *)

(** On a stub whose node answers and where no derivation breaks, the scan
    with [n = 65537], [begin = 65535] and [bucketSize = 2^32 - 65535]:
    [65535 + bucket] wraps to [0], so the first window is [65535, 0), empty,
    and the second is [0, 65537), the whole branch. *)
Lemma stub_wrapped_scan (s : stubNode) :
  (forall c, answers s c = true) ->
  (forall j, derives s 0 j <> Breaks) ->
  let batch := @batchOf (Stub s) (stubUsage s) [0] (indices 0 65537) in
  let totalUsed := @seenCount (Stub s) (seen s) true batch in
  let totalUnused := @seenCount (Stub s) (seen s) false batch in
  exists w' evs,
    @branchStats (Stub s) 2 (stubUsage s) 65537 65535 4294901761 0
      (freshWorld s) = (Done tt, w')
    /\ trace w' =
       [@Query (Stub s) []; @WindowLine (Stub s) 65535 0 0 0 (fraction 0 0)]
       ++ evs
       ++ [@TotalsLine (Stub s) totalUsed totalUnused
             (fraction totalUsed (uint32 (totalUsed + totalUnused)))].
Proof.
  intros Hup Hderives batch totalUsed totalUnused.
  assert (Hfatal : forall j,
             @fatalAt (Stub s) (stubUsage s) [0] j = None).
  { intros j. rewrite stub_fatalAt. specialize (Hderives j).
    destruct (derives s 0 j); [reflexivity|reflexivity|contradiction]. }
  pose proof (stub_answersBy s Hup) as Hnode.
  rewrite branchStats_unfold.
  change (@Child (Stub s) (@xpub (Stub s) (stubUsage s)) 0)
    with (@inl (list Z) string [0]).
  cbv iota. change (4294901761 =? 0) with false. cbv iota.
  rewrite windowLoop_step by (unfold is_uint32; lia). cbv zeta.
  change (windowEnd 65537 4294901761 65535) with 0.
  change (indices 65535 0) with (@nil Z).
  cbn [firstFatal batchOf flat_map List.length].
  destruct (Hnode (@remote (Stub s) (freshWorld s)) []) as [bits [c [Hq _]]].
  rewrite Hq.
  change (bitCount bits true 0) with 0. change (bitCount bits false 0) with 0.
  change (uint32 (0 + 0)) with 0.
  change (uint32 (65535 + 4294901761)) with 0.
  match goal with
  | |- context [@windowLoop _ 1 _ _ _ _ 0 0 0 ?w1] =>
      destruct (@windowLoop_closed (Stub s) (stubUsage s) [0] (seen s)
                  65537 4294901761 ltac:(unfold is_uint32; lia) ltac:(lia)
                  Hnode 1 0 0 0 w1 ltac:(lia) ltac:(reflexivity)
                  ltac:(lia) ltac:(lia) ltac:(reflexivity)
                  (Nat.le_refl 1) (fun j _ => Hfatal j))
        as [w2 [Hrun [evs Hevs]]]
  end.
  rewrite Hrun, !Z.add_0_l. fold batch. fold totalUsed. fold totalUnused.
  eexists. exists evs. split; [reflexivity|].
  cbn [trace]. rewrite Hevs. cbn [trace]. unfold windowEvents.
  change (4294901761 =? 65537) with false. cbv iota zeta.
  cbn [List.length]. change (bitCount bits true 0) with 0.
  change (bitCount bits false 0) with 0.
  change (windowEnd 65537 4294901761 65535) with 0.
  cbn [freshWorld trace app]. reflexivity.
Qed.

(** C3 fails on the code.  [n = 65537], [begin = 65535],
    [bucketSize = 2^32 - 65535], every index deriving and the node
    answering: the range [65535, 65537) holds two indices not classified
    InvalidChild, but [i + bucket] wraps, the scan visits the empty window
    [65535, 0) and then the whole branch [0, 65537), and the totals count
    65537 addresses. *)
Theorem wrapped_scan_counts_outside_range :
  reservedCap 65537 4294901761 = 1
  /\ @validCount (Stub evenSeen) [0] 65535 65537 = 2
  /\ (exists w' evs,
        @branchStats (Stub evenSeen) 2 (stubUsage evenSeen)
          65537 65535 4294901761 0 (freshWorld evenSeen) = (Done tt, w')
        /\ trace w' =
           [@Query (Stub evenSeen) [];
            @WindowLine (Stub evenSeen) 65535 0 0 0 (fraction 0 0)]
           ++ evs
           ++ [@TotalsLine (Stub evenSeen) 32769 32768
                 (fraction 32769 65537)])
  /\ 32769 + 32768 <> 2.
Proof.
  split; [reflexivity|]. split; [vm_compute; reflexivity|].
  split; [|discriminate].
  destruct (stub_wrapped_scan evenSeen (fun _ => eq_refl)
              ltac:(intros j; discriminate)) as [w' [evs [Hrun Htrace]]].
  assert (Hused : @seenCount (Stub evenSeen) (seen evenSeen) true
                    (@batchOf (Stub evenSeen) (stubUsage evenSeen) [0]
                       (indices 0 65537)) = 32769)
    by (vm_compute; reflexivity).
  assert (Hunused : @seenCount (Stub evenSeen) (seen evenSeen) false
                      (@batchOf (Stub evenSeen) (stubUsage evenSeen) [0]
                         (indices 0 65537)) = 32768)
    by (vm_compute; reflexivity).
  cbv zeta in Htrace. rewrite Hused, Hunused in Htrace.
  exists w', evs. split; [exact Hrun|exact Htrace].
Qed.

(** C9 fails on the code, by the same wrap-around.  On the stub without
    child keys, [n = 2^31 + 2] and [bucketSize = 2^31] never reach the
    totals line.  With [n = 65537], [begin = 65535],
    [bucketSize = 2^32 - 65535] and child keys below index 65535 only, the
    range [65535, 65537) has no valid address, yet the scan goes on to the
    window [0, 65537) and its totals are 32768 used and 32767 unused. *)
Theorem wrapped_scan_of_empty_branch :
  (reservedCap (2 ^ 31 + 2) (2 ^ 31) = 0
   /\ (forall j, @invalidChild (Stub noChild) [0] j = true)
   /\ (forall fuel w,
         fst (@branchStats (Stub noChild) fuel (stubUsage noChild)
                (2 ^ 31 + 2) 0 (2 ^ 31) 0 w) = OutOfFuel))
  /\ (reservedCap 65537 4294901761 = 1
      /\ @validCount (Stub (derivesBelow 65535)) [0] 65535 65537 = 0
      /\ exists w' evs,
           @branchStats (Stub (derivesBelow 65535)) 2
             (stubUsage (derivesBelow 65535)) 65537 65535 4294901761 0
             (freshWorld (derivesBelow 65535)) = (Done tt, w')
           /\ trace w' =
              [@Query (Stub (derivesBelow 65535)) [];
               @WindowLine (Stub (derivesBelow 65535)) 65535 0 0 0
                 (fraction 0 0)]
              ++ evs
              ++ [@TotalsLine (Stub (derivesBelow 65535)) 32768 32767
                    (fraction 32768 65535)]).
Proof.
  split; [split; [reflexivity|split]|split; [reflexivity|split]].
  - intros j. reflexivity.
  - intros fuel w. rewrite branchStats_unfold.
    change (@Child (Stub noChild) (@xpub (Stub noChild) (stubUsage noChild)) 0)
      with (@inl (list Z) string [0]).
    cbv iota. change (2 ^ 31 =? 0) with false. cbv iota.
    destruct (@windowLoop_wraps_forever (Stub noChild) (stubUsage noChild)
                [0] (2 ^ 31 + 2) ltac:(lia)
                (fun j => eq_trans (stub_fatalAt noChild 0 j) eq_refl)
                (stub_answers noChild (fun _ => eq_refl)) fuel 0 0 w)
      as [Hzero _].
    destruct (@windowLoop (Stub noChild) fuel (stubUsage noChild) [0]
                (2 ^ 31 + 2) (2 ^ 31) 0 0 0 w) as [[[tu tun]|err|] w'];
      cbn [fst] in *; first [discriminate | reflexivity].
  - vm_compute. reflexivity.
  - destruct (stub_wrapped_scan (derivesBelow 65535) (fun _ => eq_refl))
      as [w' [evs [Hrun Htrace]]].
    { intros j. cbn. destruct (j <? 65535); discriminate. }
    assert (Hused : @seenCount (Stub (derivesBelow 65535))
                      (seen (derivesBelow 65535)) true
                      (@batchOf (Stub (derivesBelow 65535))
                         (stubUsage (derivesBelow 65535)) [0]
                         (indices 0 65537)) = 32768)
      by (vm_compute; reflexivity).
    assert (Hunused : @seenCount (Stub (derivesBelow 65535))
                        (seen (derivesBelow 65535)) false
                        (@batchOf (Stub (derivesBelow 65535))
                           (stubUsage (derivesBelow 65535)) [0]
                           (indices 0 65537)) = 32767)
      by (vm_compute; reflexivity).
    cbv zeta in Htrace. rewrite Hused, Hunused in Htrace.
    exists w', evs. split; [exact Hrun|exact Htrace].
Qed.

(** C6 fails on the code, by the same wrap-around.  On the stub [evenSeen],
    over [0, 2^31 + 2): with [bucketSize = 0] the scan is one window and
    ends with its totals line; with [bucketSize = 2^31] the window start
    goes from [0] to [2^31] and wraps back to [0], so no fuel ends the scan
    and no totals are ever printed. *)
Theorem wrapped_scan_never_reports_totals :
  reservedCap (2 ^ 31 + 2) 0 = 0
  /\ reservedCap (2 ^ 31 + 2) (2 ^ 31) = 0
  /\ (exists w',
        @branchStats (Stub evenSeen) 1 (stubUsage evenSeen) (2 ^ 31 + 2) 0 0 0
          (freshWorld evenSeen) = (Done tt, w')
        /\ exists t totalUsed totalUnused frac,
             trace w' = t ++ [@TotalsLine (Stub evenSeen)
                                totalUsed totalUnused frac])
  /\ (forall fuel,
        fst (@branchStats (Stub evenSeen) fuel (stubUsage evenSeen)
               (2 ^ 31 + 2) 0 (2 ^ 31) 0 (freshWorld evenSeen)) = OutOfFuel).
Proof.
  assert (Hfatal : forall j,
             @fatalAt (Stub evenSeen) (stubUsage evenSeen) [0] j = None)
    by (intros j; rewrite stub_fatalAt; reflexivity).
  pose proof (stub_answers evenSeen (fun _ => eq_refl)) as Hnode.
  split; [reflexivity|]. split; [reflexivity|]. split.
  - rewrite branchStats_unfold.
    change (@Child (Stub evenSeen)
              (@xpub (Stub evenSeen) (stubUsage evenSeen)) 0)
      with (@inl (list Z) string [0]).
    cbv iota. change (0 =? 0) with true. cbv iota.
    rewrite windowLoop_step by (unfold is_uint32; lia). cbv zeta.
    rewrite firstFatal_none by (intros; apply Hfatal).
    match goal with
    | |- context [@UsedAddresses ?C ?c ?addrs] =>
        destruct (Hnode c addrs) as [bits [c' Hq]]; rewrite Hq
    end.
    change (uint32 (0 + (2 ^ 31 + 2))) with (2 ^ 31 + 2).
    rewrite windowLoop_exit by lia.
    eexists. split; [reflexivity|].
    cbn [trace]. eexists. eexists. eexists. eexists. reflexivity.
  - intros fuel. rewrite branchStats_unfold.
    change (@Child (Stub evenSeen)
              (@xpub (Stub evenSeen) (stubUsage evenSeen)) 0)
      with (@inl (list Z) string [0]).
    cbv iota. change (2 ^ 31 =? 0) with false. cbv iota.
    destruct (@windowLoop_wraps_forever (Stub evenSeen) (stubUsage evenSeen)
                [0] (2 ^ 31 + 2) ltac:(lia) Hfatal Hnode fuel 0 0
                (freshWorld evenSeen)) as [Hzero _].
    destruct (@windowLoop (Stub evenSeen) fuel (stubUsage evenSeen) [0]
                (2 ^ 31 + 2) (2 ^ 31) 0 0 0 (freshWorld evenSeen))
      as [[[tu tun]|err|] w'];
      cbn [fst] in *; first [discriminate | reflexivity].
Qed.

(** ** What every scan does, whatever its outcome *)

Section Events.
Context `{Collaborators}.
Variables (u : usage) (bk : ExtendedKey) (n bucket : Z).

Lemma queries_app (t1 t2 : list event) :
  queries (t1 ++ t2) = queries t1 ++ queries t2.
Proof. unfold queries. apply flat_map_app. Qed.

Lemma totalsLines_app (t1 t2 : list event) :
  totalsLines (t1 ++ t2) = totalsLines t1 ++ totalsLines t2.
Proof. unfold totalsLines. apply filter_app. Qed.

Lemma replay_app (c : Remote) (qs1 qs2 : list (list Address)) :
  replay c (qs1 ++ qs2) = replay (replay c qs1) qs2.
Proof. unfold replay. apply fold_left_app. Qed.

(** Each step of the inner loop appends at most one address. *)
Lemma childLoop_length :
  forall (fuel : nat) (j max : Z) (addrs batch : list Address),
    childLoop fuel u bk j max addrs = Done batch ->
    (List.length batch <= List.length addrs + fuel)%nat.
Proof.
  induction fuel as [|fuel IH]; intros j max addrs batch; cbn [childLoop];
    destruct (j <? max).
  - discriminate.
  - intros E. injection E as <-. lia.
  - destruct (Child bk j) as [childKey|err].
    + destruct (addr u childKey) as [a|err]; [|discriminate].
      intros E. apply IH in E. rewrite length_app in E. cbn in E. lia.
    + destruct (IsErrInvalidChild err); [|discriminate].
      intros E. apply IH in E. lia.
  - intros E. injection E as <-. lia.
Qed.

(** The window loop only appends events, none of them a totals line; the
    connection it leaves is the one the recorded queries lead to; and a
    query never holds more addresses than the bucket or than [n]. *)
Lemma windowLoop_events :
  forall (fuel : nat) (i totalUsed totalUnused : Z) (w : World)
         (r : outcome (Z * Z)) (w' : World),
    windowLoop fuel u bk n bucket i totalUsed totalUnused w = (r, w') ->
    exists evs,
      trace w' = trace w ++ evs
      /\ totalsLines evs = []
      /\ remote w' = replay (remote w) (queries evs)
      /\ (0 <= i -> 0 <= bucket -> 0 <= n ->
          Forall (fun q => Z.of_nat (List.length q) <= bucket /\
                           Z.of_nat (List.length q) <= n) (queries evs)).
Proof.
  assert (Hstop : forall (w : World),
             exists evs,
               trace w = trace w ++ evs
               /\ totalsLines evs = []
               /\ remote w = replay (remote w) (queries evs)
               /\ Forall (fun q => Z.of_nat (List.length q) <= bucket /\
                                   Z.of_nat (List.length q) <= n)
                    (queries evs)).
  { intros w. exists []. rewrite app_nil_r. repeat split. constructor. }
  induction fuel as [|fuel IH]; intros i tu tun w r w' Hrun;
    cbn [windowLoop] in Hrun; destruct (i <? n) eqn:Hlt.
  - injection Hrun as <- <-. destruct (Hstop w) as [evs Hevs].
    exists evs. intuition.
  - injection Hrun as <- <-. destruct (Hstop w) as [evs Hevs].
    exists evs. intuition.
  - set (hi := if uint32 (i + bucket) >? n then n else uint32 (i + bucket))
      in Hrun.
    unfold bind at 1 in Hrun. unfold lift in Hrun.
    destruct (childLoop (Z.to_nat (hi - i)) u bk i hi []) as [addrs|err|]
      eqn:Hbatch.
    + unfold bind at 1 in Hrun. unfold rpcUsedAddresses in Hrun.
      assert (Hlen : 0 <= i -> 0 <= bucket -> 0 <= n ->
                     Z.of_nat (List.length addrs) <= bucket /\
                     Z.of_nat (List.length addrs) <= n).
      { intros Hi Hb Hn0. apply childLoop_length in Hbatch.
        cbn [List.length] in Hbatch.
        assert (hi <= n) by (unfold hi; destruct (_ >? n) eqn:E; lia).
        assert (hi <= i + bucket).
        { unfold hi. pose proof (Z.mod_le (i + bucket) (2 ^ 32)
                                   ltac:(lia) ltac:(lia)) as Hmod.
          fold (uint32 (i + bucket)) in Hmod.
          destruct (_ >? n) eqn:E; lia. }
        lia. }
      destruct (UsedAddresses (remote w) addrs) as [[bits|err] c] eqn:Hq.
      * destruct (countBits bits addrs) as [used unused].
        unfold bind at 1 in Hrun.
        pose proof (uint32_range (i + bucket)) as Hnext.
        destruct (bucket =? n); unfold ret, emit in Hrun;
          cbn [remote trace] in Hrun;
          apply IH in Hrun; destruct Hrun as [evs [Ht [Hnone [Hr Hall]]]];
          cbn [remote trace] in *.
        -- exists (Query addrs :: evs).
           rewrite Ht, <- app_assoc. split; [reflexivity|].
           split; [exact Hnone|]. split.
           ++ rewrite Hr. cbn [queries flat_map app]. unfold replay.
              cbn [fold_left]. now rewrite Hq.
           ++ intros Hi Hb Hn0. cbn [queries flat_map app].
              constructor; [apply Hlen; assumption|].
              apply Hall; lia.
        -- eexists (Query addrs :: _ :: evs).
           rewrite Ht, <- !app_assoc. split; [reflexivity|].
           split; [exact Hnone|]. split.
           ++ rewrite Hr. cbn [queries flat_map app]. unfold replay.
              cbn [fold_left]. now rewrite Hq.
           ++ intros Hi Hb Hn0. cbn [queries flat_map app].
              constructor; [apply Hlen; assumption|].
              apply Hall; lia.
      * injection Hrun as <- <-. exists [Query addrs]. cbn [remote trace].
        split; [reflexivity|]. split; [reflexivity|]. split.
        -- unfold replay. cbn. now rewrite Hq.
        -- intros Hi Hb Hn0. cbn. constructor; [|constructor].
           apply Hlen; assumption.
    + injection Hrun as <- <-. destruct (Hstop w) as [evs Hevs].
      exists evs. intuition.
    + injection Hrun as <- <-. destruct (Hstop w) as [evs Hevs].
      exists evs. intuition.
  - injection Hrun as <- <-. destruct (Hstop w) as [evs Hevs].
    exists evs. intuition.
Qed.

End Events.

Section ScanEvents.
Context `{Collaborators}.
Variable u : usage.

(** [branchStats] in terms of the events it adds. *)
Lemma branchStats_events (fuel : nat) (n begin bucket branch : Z)
    (w : World) (r : outcome unit) (w' : World) :
  branchStats fuel u n begin bucket branch w = (r, w') ->
  exists evs,
    trace w' = trace w ++ evs
    /\ remote w' = replay (remote w) (queries evs)
    /\ (0 <= begin -> 0 <= bucket -> 0 <= n ->
        Forall (fun q =>
                  Z.of_nat (List.length q)
                    <= (if bucket =? 0 then n else bucket) /\
                  Z.of_nat (List.length q) <= n) (queries evs))
    /\ match r with
       | Done _ =>
           exists evs0 totalUsed totalUnused,
             evs = evs0 ++
                   [TotalsLine totalUsed totalUnused
                      (fraction totalUsed
                         (uint32 (totalUsed + totalUnused)))]
             /\ totalsLines evs0 = []
       | _ => totalsLines evs = []
       end.
Proof.
  rewrite branchStats_unfold.
  destruct (Child (xpub u) branch) as [bk|err].
  - destruct (windowLoop fuel u bk n (if bucket =? 0 then n else bucket)
                begin 0 0 w) as [r1 w1] eqn:Hloop.
    apply windowLoop_events in Hloop.
    destruct Hloop as [evs [Ht [Hnone [Hr Hall]]]].
    assert (Hbound : 0 <= begin -> 0 <= bucket -> 0 <= n ->
                     Forall (fun q =>
                               Z.of_nat (List.length q)
                                 <= (if bucket =? 0 then n else bucket) /\
                               Z.of_nat (List.length q) <= n) (queries evs)).
    { intros Hb Hbk Hn0. apply Hall; try assumption.
      destruct (bucket =? 0); assumption. }
    destruct r1 as [[tu tun]|err|]; intros E; injection E as <- <-.
    + eexists (evs ++ [_]). cbn [trace remote].
      rewrite Ht, <- app_assoc. split; [reflexivity|].
      rewrite queries_app, app_nil_r. split; [exact Hr|].
      split; [exact Hbound|]. exists evs, tu, tun. split; [reflexivity|].
      exact Hnone.
    + exists evs. repeat split; assumption.
    + exists evs. repeat split; assumption.
  - intros E. injection E as <- <-. exists [].
    rewrite app_nil_r. repeat split. intros _ _ _. constructor.
Qed.

End ScanEvents.

(** Whatever the inputs and the outcome, also when the window bounds wrap,
    no query of a branch scan holds more addresses than the effective
    bucket, nor more than [n]. *)
Theorem query_batches_within_bucket `{Collaborators}
    (u : usage) (n begin bucket branch : Z) (fuel : nat) (w : World) :
  is_uint32 n -> is_uint32 begin -> is_uint32 bucket ->
  exists evs,
    trace (snd (branchStats fuel u n begin bucket branch w)) = trace w ++ evs
    /\ Forall (fun q =>
                 Z.of_nat (List.length q)
                   <= (if bucket =? 0 then n else bucket) /\
                 Z.of_nat (List.length q) <= n) (queries evs).
Proof.
  intros Hn Hbegin Hbucket. unfold is_uint32 in *.
  destruct (branchStats fuel u n begin bucket branch w) as [r w'] eqn:Hrun.
  destruct (branchStats_events u fuel n begin bucket branch w r w' Hrun)
    as [evs [Ht [_ [Hall _]]]].
  exists evs. split; [exact Ht|]. apply Hall; lia.
Qed.

(** On the stub [mixed]: eight indices in buckets of four, the derivation
    of index 4 breaking in the second window. *)
Lemma query_batches_within_bucket_witness :
  exists evs,
    trace (snd (@branchStats (Stub mixed) 2 (stubUsage mixed) 8 0 4 0
                  (freshWorld mixed))) = [] ++ evs
    /\ Forall (fun q => Z.of_nat (List.length q) <= 4 /\
                        Z.of_nat (List.length q) <= 8)
         (@queries (Stub mixed) evs).
Proof.
  apply (@query_batches_within_bucket (Stub mixed) (stubUsage mixed)
           8 0 4 0 2 (freshWorld mixed)); unfold is_uint32; lia.
Defined.

(** A branch scan prints its totals line exactly when it returns nil, and
    then as its last event: a scan that fails or is still running has
    printed no totals line.  In every case the events of before stand, and
    the connection is left as the recorded queries, sent in order, leave
    it. *)
Theorem totals_line_only_on_success `{Collaborators}
    (u : usage) (n begin bucket branch : Z) (fuel : nat) (w : World) :
  exists evs,
    trace (snd (branchStats fuel u n begin bucket branch w)) = trace w ++ evs
    /\ remote (snd (branchStats fuel u n begin bucket branch w))
       = replay (remote w) (queries evs)
    /\ match fst (branchStats fuel u n begin bucket branch w) with
       | Done _ =>
           exists evs0 totalUsed totalUnused,
             evs = evs0 ++
                   [TotalsLine totalUsed totalUnused
                      (fraction totalUsed
                         (uint32 (totalUsed + totalUnused)))]
             /\ totalsLines evs0 = []
       | _ => totalsLines evs = []
       end.
Proof.
  destruct (branchStats fuel u n begin bucket branch w) as [r w'] eqn:Hrun.
  destruct (branchStats_events u fuel n begin bucket branch w r w' Hrun)
    as [evs [Ht [Hr [_ Hlast]]]].
  exists evs. cbn [fst snd]. repeat split; assumption.
Qed.

(** ** Both branches *)

Section Stats.
Context `{Collaborators}.
Variable u : usage.

Lemma branchStats_totalsLines (fuel : nat) (n begin bucket branch : Z)
    (w : World) (r : outcome unit) (w' : World) :
  branchStats fuel u n begin bucket branch w = (r, w') ->
  exists evs,
    trace w' = trace w ++ evs
    /\ remote w' = replay (remote w) (queries evs)
    /\ List.length (totalsLines evs)
       = match r with Done _ => 1%nat | _ => 0%nat end.
Proof.
  intros Hrun.
  destruct (branchStats_events u fuel n begin bucket branch w r w' Hrun)
    as [evs [Ht [Hr [_ Hlast]]]].
  exists evs. split; [exact Ht|]. split; [exact Hr|].
  destruct r as [[]|err|]; try (now rewrite Hlast).
  destruct Hlast as [evs0 [tu [tun [-> Hnone]]]].
  rewrite totalsLines_app, Hnone. reflexivity.
Qed.

(** [stats] in terms of the events it adds. *)
Lemma stats_events (fuel : nat) (f : flags) (w : World)
    (r : outcome unit) (w' : World) :
  stats fuel f u w = (r, w') ->
  exists evs,
    trace w' = trace w ++ evs
    /\ remote w' = replay (remote w) (queries evs)
    /\ (List.length (totalsLines evs) <= scannedBranches f)%nat
    /\ (List.length (totalsLines evs) = scannedBranches f <-> r = Done tt).
Proof.
  unfold stats, scannedBranches, bind.
  assert (Hnil : forall w0 : World,
             trace w0 = trace w0 ++ []
             /\ remote w0 = replay (remote w0) (queries [])).
  { intros w0. rewrite app_nil_r. split; reflexivity. }
  destruct (uint32 (externalFlag f) =? 0); cbn [negb];
    destruct (uint32 (internalFlag f) =? 0); cbn [negb Nat.add];
    unfold ret.
  - intros E. injection E as <- <-. exists [].
    destruct (Hnil w) as [Ht Hr]. repeat split; try assumption.
    apply Nat.le_refl.
  - intros Hrun. apply branchStats_totalsLines in Hrun.
    destruct Hrun as [evs [Ht [Hr Hlen]]]. exists evs.
    split; [exact Ht|]. split; [exact Hr|]. rewrite Hlen.
    destruct r as [[]|err|]; repeat split; try lia; try discriminate;
      intros _; reflexivity.
  - destruct (branchStats fuel u _ _ _ 0 w) as [r1 w1] eqn:Hext.
    apply branchStats_totalsLines in Hext.
    destruct Hext as [evs [Ht [Hr Hlen]]].
    destruct r1 as [[]|err|]; intros E; injection E as <- <-;
      exists evs; (split; [exact Ht|]); (split; [exact Hr|]); rewrite Hlen;
      repeat split; try lia; try discriminate; intros _; reflexivity.
  - destruct (branchStats fuel u _ _ _ 0 w) as [r1 w1] eqn:Hext.
    apply branchStats_totalsLines in Hext.
    destruct Hext as [evs1 [Ht1 [Hr1 Hlen1]]].
    destruct r1 as [[]|err|].
    + intros Hint. apply branchStats_totalsLines in Hint.
      destruct Hint as [evs2 [Ht2 [Hr2 Hlen2]]].
      exists (evs1 ++ evs2).
      rewrite Ht2, Ht1, <- app_assoc. split; [reflexivity|].
      rewrite queries_app, replay_app, <- Hr1. split; [exact Hr2|].
      rewrite totalsLines_app, length_app, Hlen1, Hlen2.
      destruct r as [[]|err|]; repeat split; try lia; try discriminate;
        intros _; reflexivity.
    + intros E. injection E as <- <-. exists evs1.
      split; [exact Ht1|]. split; [exact Hr1|]. rewrite Hlen1.
      repeat split; try lia; discriminate.
    + intros E. injection E as <- <-. exists evs1.
      split; [exact Ht1|]. split; [exact Hr1|]. rewrite Hlen1.
      repeat split; try lia; discriminate.
Qed.

End Stats.

(** [stats] prints one totals line per branch it scans, external first, and
    scans a branch when its count, narrowed to 32 bits, is not 0: the
    number of totals lines it adds equals the number of such branches
    exactly when it returns nil, and is smaller when a scan failed or is
    still running.  The events of before stand, and the connection is left
    as the recorded queries of both branches, sent in order, leave it. *)
Theorem stats_one_totals_line_per_branch `{Collaborators}
    (u : usage) (f : flags) (fuel : nat) (w : World) :
  exists evs,
    trace (snd (stats fuel f u w)) = trace w ++ evs
    /\ remote (snd (stats fuel f u w)) = replay (remote w) (queries evs)
    /\ (List.length (totalsLines evs) <= scannedBranches f)%nat
    /\ (List.length (totalsLines evs) = scannedBranches f
        <-> fst (stats fuel f u w) = Done tt).
Proof.
  destruct (stats fuel f u w) as [r w'] eqn:Hrun.
  exact (stats_events u fuel f w r w' Hrun).
Qed.

(** ** The windows of a scan without wrap-around *)

Lemma windowCount_done (n bucket i : Z) :
  1 <= bucket -> n <= i -> windowCount n bucket i = O.
Proof.
  intros Hb Hi. unfold windowCount.
  set (q := (n - i + bucket - 1) / bucket).
  pose proof (Z.mul_div_le (n - i + bucket - 1) bucket ltac:(lia)) as Hle.
  fold q in Hle. assert (q < 1) by nia. lia.
Qed.

(** The windows of a scan tile its range: they are not empty, none is
    longer than the bucket, each ends within [n], and their indices, one
    window after the other, are the indices of [i, n) in order. *)
Lemma windowBounds_tile (n bucket : Z) :
  1 <= bucket ->
  forall i,
    let bounds := windowBounds (windowCount n bucket i) i n bucket in
    flat_map (fun ab => indices (fst ab) (snd ab)) bounds = indices i n
    /\ Forall (fun ab => fst ab < snd ab <= n /\ snd ab - fst ab <= bucket)
         bounds.
Proof.
  intros Hb i. cbv zeta.
  remember (windowCount n bucket i) as k eqn:Hk.
  revert i Hk. induction k as [|k IH]; intros i Hk.
  - destruct (Z_lt_le_dec i n) as [Hlt|Hge].
    + rewrite (windowCount_next n bucket i) in Hk by lia. discriminate.
    + cbn. rewrite indices_nil by lia. split; [reflexivity|constructor].
  - destruct (Z_lt_le_dec i n) as [Hlt|Hge].
    + rewrite (windowCount_next n bucket i) in Hk by lia.
      injection Hk as Hk. destruct (IH (i + bucket) Hk) as [Hcover Hall].
      cbn [windowBounds flat_map fst snd]. rewrite Hcover. split.
      * destruct (Z_le_gt_dec (i + bucket) n) as [Hle|Hgt].
        -- rewrite Z.min_l by lia. symmetry. apply indices_app. lia.
        -- rewrite Z.min_r by lia.
           rewrite (indices_nil (i + bucket) n) by lia. apply app_nil_r.
      * constructor; [cbn [fst snd]; lia|exact Hall].
    + rewrite windowCount_done in Hk by lia. discriminate.
Qed.

Section Windows.
Context `{Collaborators}.
Variables (u : usage) (bk : ExtendedKey) (n bucket : Z).
Hypothesis Hn : is_uint32 n.
Hypothesis Hbucket : 1 <= bucket.

Lemma lineBounds_app (t1 t2 : list event) :
  lineBounds (t1 ++ t2) = lineBounds t1 ++ lineBounds t2.
Proof. unfold lineBounds. apply flat_map_app. Qed.

(** A scan whose window starts do not wrap, when it returns: its queries
    are the batches of its windows, in order, and its lines, when printed,
    show the bounds of its windows. *)
Lemma windowLoop_windows :
  forall (fuel : nat) (i totalUsed totalUnused : Z) (w : World),
    0 <= i -> noWrap n bucket i ->
    (windowCount n bucket i <= fuel)%nat ->
    match windowLoop fuel u bk n bucket i totalUsed totalUnused w with
    | (Done _, w') =>
        exists evs,
          trace w' = trace w ++ evs
          /\ queries evs =
             map (batchOfWindow u bk)
               (windowBounds (windowCount n bucket i) i n bucket)
          /\ lineBounds evs =
             (if bucket =? n then []
              else windowBounds (windowCount n bucket i) i n bucket)
    | (Failed _, _) => True
    | (OutOfFuel, _) => False
    end.
Proof.
  induction fuel as [|fuel IH]; intros i tu tun w Hi Hw Hfuel.
  - destruct (Z_lt_le_dec i n) as [Hlt|Hge].
    + rewrite (windowCount_next n bucket i) in Hfuel by lia. lia.
    + rewrite windowLoop_exit by lia. exists [].
      rewrite app_nil_r, windowCount_done by lia.
      repeat split. now destruct (bucket =? n).
  - destruct (Z_lt_le_dec i n) as [Hlt|Hge].
    + destruct (noWrap_next n bucket i Hbucket Hlt Hw) as [Hnext Hw'].
      pose proof (windowEnd_no_wrap n bucket i ltac:(lia)) as Hend.
      rewrite windowLoop_step by (try exact Hn; lia). cbv zeta.
      destruct (firstFatal u bk (indices i (windowEnd n bucket i)));
        [exact I|].
      destruct (UsedAddresses (remote w) _) as [[bits|err] c]; [|exact I].
      rewrite (uint32_small (i + bucket)) by lia.
      rewrite (windowCount_next n bucket i) in Hfuel |- * by lia.
      match goal with
      | |- context [windowLoop fuel u bk n bucket ?i' ?a ?b ?w'] =>
          specialize (IH i' a b w' ltac:(lia) Hw' ltac:(lia));
          destruct (windowLoop fuel u bk n bucket i' a b w')
            as [[t|err|] w'']
      end; [|exact I|exact IH].
      destruct IH as [evs [Ht [Hqs Hlines]]]. cbn [trace] in Ht.
      eexists (windowEvents n bucket i _ bits ++ evs).
      rewrite Ht, <- app_assoc. split; [reflexivity|].
      rewrite queries_app, lineBounds_app, Hqs, Hlines.
      cbn [windowBounds map]. unfold batchOfWindow at 2. cbn [fst snd].
      rewrite <- Hend. unfold windowEvents. cbv zeta.
      destruct (bucket =? n); split; reflexivity.
    + rewrite windowLoop_exit by lia. exists [].
      rewrite app_nil_r, windowCount_done by lia.
      repeat split. now destruct (bucket =? n).
Qed.

End Windows.

Lemma windowBounds_length (k : nat) (lo hi bucket : Z) :
  List.length (windowBounds k lo hi bucket) = k.
Proof.
  revert lo. induction k as [|k IH]; intros lo; [reflexivity|].
  cbn [windowBounds List.length]. now rewrite IH.
Qed.

Lemma batchOfWindow_concat `{Collaborators} (u : usage) (bk : ExtendedKey)
    (bounds : list (Z * Z)) :
  concat (map (batchOfWindow u bk) bounds) =
  batchOf u bk (flat_map (fun ab => indices (fst ab) (snd ab)) bounds).
Proof.
  induction bounds as [|ab bounds IH]; [reflexivity|].
  cbn [map concat flat_map]. rewrite batchOf_app, IH. reflexivity.
Qed.

(** For window starts that do not wrap, a scan that returns nil has sent
    one query per window, each the batch of its window: as many queries as
    [begin, n) has windows, and, put end to end, the addresses of the
    indices of [begin, n), every index at most once and in index order. *)
Theorem queries_cover_range_once `{Collaborators}
    (u : usage) (bk : ExtendedKey) (n begin bucket branch : Z)
    (fuel : nat) (w : World) :
  is_uint32 n -> is_uint32 begin ->
  let effective := if bucket =? 0 then n else bucket in
  1 <= effective -> noWrap n effective begin ->
  Child (xpub u) branch = inl bk ->
  (windowCount n effective begin <= fuel)%nat ->
  match branchStats fuel u n begin bucket branch w with
  | (Done _, w') =>
      exists evs,
        trace w' = trace w ++ evs
        /\ queries evs =
           map (batchOfWindow u bk)
             (windowBounds (windowCount n effective begin)
                begin n effective)
        /\ List.length (queries evs) = windowCount n effective begin
        /\ concat (queries evs) = batchOf u bk (indices begin n)
  | (Failed _, _) => True
  | (OutOfFuel, _) => False
  end.
Proof.
  intros Hn Hbegin effective Heff Hw Hbranch Hfuel.
  rewrite branchStats_unfold, Hbranch. fold effective.
  pose proof (windowLoop_windows u bk n effective Hn Heff fuel begin 0 0 w
                ltac:(unfold is_uint32 in Hbegin; lia) Hw Hfuel) as Hwin.
  destruct (windowLoop fuel u bk n effective begin 0 0 w)
    as [[[tu tun]|err|] w']; [|exact I|exact Hwin].
  destruct Hwin as [evs [Ht [Hqs _]]].
  eexists (evs ++ [_]). cbn [trace]. rewrite Ht, <- app_assoc.
  split; [reflexivity|].
  rewrite queries_app, app_nil_r, Hqs. split; [reflexivity|].
  split; [now rewrite length_map, windowBounds_length|].
  rewrite batchOfWindow_concat.
  destruct (windowBounds_tile n effective Heff begin) as [Hcover _].
  now rewrite Hcover.
Qed.

(** On the stub [mixed] without its breaking index in range: the indices
    [1, 4) in buckets of two, index 1 having no child key. *)
Lemma queries_cover_range_once_witness :
  match @branchStats (Stub mixed) 2 (stubUsage mixed) 4 1 2 0
          (freshWorld mixed) with
  | (Done _, w') =>
      exists evs,
        trace w' = [] ++ evs
        /\ @queries (Stub mixed) evs =
           map (@batchOfWindow (Stub mixed) (stubUsage mixed) [0])
             (windowBounds (windowCount 4 2 1) 1 4 2)
        /\ List.length (@queries (Stub mixed) evs) = windowCount 4 2 1
        /\ concat (@queries (Stub mixed) evs) =
           @batchOf (Stub mixed) (stubUsage mixed) [0] (indices 1 4)
  | (Failed _, _) => True
  | (OutOfFuel, _) => False
  end.
Proof.
  apply (@queries_cover_range_once (Stub mixed) (stubUsage mixed) [0]
           4 1 2 0 2 (freshWorld mixed)).
  - unfold is_uint32. lia.
  - unfold is_uint32. lia.
  - cbv. discriminate.
  - reflexivity.
  - reflexivity.
  - apply Nat.le_refl.
Defined.

(** For window starts that do not wrap and a bucket other than [n], a scan
    that returns nil has printed one line per window, and the bounds on the
    lines tile the range: the first starts at [begin], each starts [bucket]
    after the one before and ends at the next start or at [n], none is
    empty or longer than the bucket, and together they hold the indices of
    [begin, n) in order. *)
Theorem window_lines_tile_range `{Collaborators}
    (u : usage) (bk : ExtendedKey) (n begin bucket branch : Z)
    (fuel : nat) (w : World) :
  is_uint32 n -> is_uint32 begin ->
  1 <= bucket -> bucket <> n -> noWrap n bucket begin ->
  Child (xpub u) branch = inl bk ->
  (windowCount n bucket begin <= fuel)%nat ->
  match branchStats fuel u n begin bucket branch w with
  | (Done _, w') =>
      exists evs,
        trace w' = trace w ++ evs
        /\ lineBounds evs =
           windowBounds (windowCount n bucket begin) begin n bucket
        /\ flat_map (fun ab => indices (fst ab) (snd ab)) (lineBounds evs)
           = indices begin n
        /\ Forall (fun ab => fst ab < snd ab <= n /\
                             snd ab - fst ab <= bucket) (lineBounds evs)
  | (Failed _, _) => True
  | (OutOfFuel, _) => False
  end.
Proof.
  intros Hn Hbegin Hbucket Hneq Hw Hbranch Hfuel.
  rewrite branchStats_unfold, Hbranch.
  replace (bucket =? 0) with false by (symmetry; apply Z.eqb_neq; lia).
  pose proof (windowLoop_windows u bk n bucket Hn Hbucket fuel begin 0 0 w
                ltac:(unfold is_uint32 in Hbegin; lia) Hw Hfuel) as Hwin.
  destruct (windowLoop fuel u bk n bucket begin 0 0 w)
    as [[[tu tun]|err|] w']; [|exact I|exact Hwin].
  destruct Hwin as [evs [Ht [_ Hlines]]].
  replace (bucket =? n) with false in Hlines
    by (symmetry; apply Z.eqb_neq; exact Hneq).
  eexists (evs ++ [_]). cbn [trace]. rewrite Ht, <- app_assoc.
  split; [reflexivity|].
  rewrite lineBounds_app, app_nil_r, Hlines.
  destruct (windowBounds_tile n bucket Hbucket begin) as [Hcover Hall].
  repeat split; assumption.
Qed.

(** On the stub [evenSeen]: the indices [1, 10) in buckets of four, the
    windows [1, 5), [5, 9) and [9, 10). *)
Lemma window_lines_tile_range_witness :
  match @branchStats (Stub evenSeen) 3 (stubUsage evenSeen) 10 1 4 0
          (freshWorld evenSeen) with
  | (Done _, w') =>
      exists evs,
        trace w' = [] ++ evs
        /\ @lineBounds (Stub evenSeen) evs = [(1, 5); (5, 9); (9, 10)]
        /\ flat_map (fun ab => indices (fst ab) (snd ab))
             (@lineBounds (Stub evenSeen) evs) = indices 1 10
        /\ Forall (fun ab => fst ab < snd ab <= 10 /\
                             snd ab - fst ab <= 4)
             (@lineBounds (Stub evenSeen) evs)
  | (Failed _, _) => True
  | (OutOfFuel, _) => False
  end.
Proof.
  apply (@window_lines_tile_range (Stub evenSeen) (stubUsage evenSeen) [0]
           10 1 4 0 3 (freshWorld evenSeen)).
  - unfold is_uint32. lia.
  - unfold is_uint32. lia.
  - lia.
  - lia.
  - reflexivity.
  - reflexivity.
  - apply Nat.le_refl.
Defined.

(** ** Start-up and exit status *)

(** [main] exits with status 1 exactly when a flag check or a start-up step
    fails, and then with a logged message and before any query or output.
    When the flags pass and the start-up succeeds it runs the scan and, once
    the scan has returned, exits with status 0 and nothing logged, whatever
    the scan returned. *)
Theorem exit_status_follows_startup `{Collaborators}
    (fuel : nat) (f : flags) :
  (flagsValid f /\ startsUp f ->
   exists out, main fuel f = Exit 0 None out \/ main fuel f = Running out)
  /\ (~ (flagsValid f /\ startsUp f) ->
      exists msg, main fuel f = Exit 1 (Some msg) []).
Proof.
  unfold main, logFatal, flagsValid, startsUp, tlsConfig.
  destruct ((externalFlag f =? 0) && (internalFlag f =? 0)) eqn:Hcounts.
  { apply andb_true_iff in Hcounts. destruct Hcounts as [He Hi].
    apply Z.eqb_eq in He, Hi. split.
    - intros [[[Hne|Hne] _] _]; contradiction.
    - intros _. eexists. reflexivity. }
  apply andb_false_iff in Hcounts.
  assert (Hrequired : externalFlag f <> 0 \/ internalFlag f <> 0)
    by (destruct Hcounts as [E|E]; apply Z.eqb_neq in E; tauto).
  destruct (externalStartFlag f >? externalFlag f) eqn:Hes.
  { split; [|intros _; eexists; reflexivity].
    intros [[_ [Hle _]] _].
    pose proof (Zgt_cases (externalStartFlag f) (externalFlag f)) as Hc.
    rewrite Hes in Hc. lia. }
  destruct (internalStartFlag f >? internalFlag f) eqn:His.
  { split; [|intros _; eexists; reflexivity].
    intros [[_ [_ [Hle _]]] _].
    pose proof (Zgt_cases (internalStartFlag f) (internalFlag f)) as Hc.
    rewrite His in Hc. lia. }
  destruct (String.eqb (xpubFlag f) EmptyString) eqn:Hx.
  { split; [|intros _; eexists; reflexivity].
    intros [[_ [_ [_ Hne]]] _]. apply String.eqb_eq in Hx. contradiction. }
  assert (Hvalid : (externalFlag f <> 0 \/ internalFlag f <> 0)
                   /\ externalStartFlag f <= externalFlag f
                   /\ internalStartFlag f <= internalFlag f
                   /\ xpubFlag f <> EmptyString).
  { pose proof (Zgt_cases (externalStartFlag f) (externalFlag f)) as Hc1.
    pose proof (Zgt_cases (internalStartFlag f) (internalFlag f)) as Hc2.
    rewrite Hes in Hc1. rewrite His in Hc2. apply String.eqb_neq in Hx.
    repeat split; assumption. }
  destruct (NewKeyFromString _ _) as [key|err] eqn:Hkey.
  2:{ split; [|intros _; eexists; reflexivity].
      intros [_ [key [b [c [Hk _]]]]]. discriminate. }
  destruct (ReadFile (caCert f)) as [b|err] eqn:Hread.
  2:{ split; [|intros _; eexists; reflexivity].
      intros [_ [key' [b [c [_ [Hr _]]]]]]. discriminate. }
  destruct (AppendCertsFromPEM b) as [pool ok] eqn:Hpem.
  destruct ok; cbn [negb].
  2:{ split; [|intros _; eexists; reflexivity].
      intros [_ [key' [b' [c [_ [Hr [Hok _]]]]]]].
      injection Hr as <-. rewrite Hpem in Hok. discriminate. }
  destruct (Dial _ _ _ _) as [c|err] eqn:Hdial.
  2:{ split; [|intros _; eexists; reflexivity].
      intros [_ [key' [b' [c [_ [Hr [_ Hd]]]]]]].
      injection Hr as <-. rewrite Hpem in Hd. cbn [fst] in Hd.
      rewrite Hdial in Hd. discriminate. }
  split.
  - intros _.
    destruct (stats fuel f _ _) as [[[]|err|] w]; eexists;
      first [left; reflexivity | right; reflexivity].
  - intros Hnot. exfalso. apply Hnot. split; [exact Hvalid|].
    exists key, b, c. rewrite Hpem. cbn [fst snd].
    repeat split; assumption.
Qed.

(** A count that is a multiple of [2^32] other than 0 passes the check that
    a count is given, but [stats] narrows it to 0 and skips the branch.
    When both counts narrow to 0 and the start-up succeeds, the process
    sends no query, prints nothing and exits with status 0. *)
Theorem narrowed_counts_scan_nothing `{Collaborators}
    (fuel : nat) (f : flags) :
  flagsValid f -> startsUp f ->
  uint32 (externalFlag f) = 0 -> uint32 (internalFlag f) = 0 ->
  main fuel f = Exit 0 None [].
Proof.
  intros [Hrequired [Hes [His Hx]]] [key [b [c [Hkey [Hread [Hok Hdial]]]]]]
    Hext Hint.
  unfold main, tlsConfig.
  replace ((externalFlag f =? 0) && (internalFlag f =? 0)) with false.
  2:{ symmetry. apply andb_false_iff.
      destruct Hrequired as [E|E]; [left|right]; now apply Z.eqb_neq. }
  replace (externalStartFlag f >? externalFlag f) with false
    by (symmetry; rewrite Z.gtb_ltb; apply Z.ltb_ge; exact Hes).
  replace (internalStartFlag f >? internalFlag f) with false
    by (symmetry; rewrite Z.gtb_ltb; apply Z.ltb_ge; exact His).
  replace (String.eqb (xpubFlag f) EmptyString) with false
    by (symmetry; apply String.eqb_neq; exact Hx).
  rewrite Hkey, Hread.
  destruct (AppendCertsFromPEM b) as [pool ok]. cbn [fst snd] in *.
  subst ok. cbn [negb]. rewrite Hdial.
  unfold stats, bind, ret. rewrite Hext, Hint. reflexivity.
Qed.

(** On the stub [evenSeen]: [-external 4294967296]. *)
Lemma narrowed_counts_scan_nothing_witness :
  @main (Stub evenSeen) 1 (scanExternal 4294967296 0 0)
  = @Exit (Stub evenSeen) 0 None [].
Proof.
  apply (@narrowed_counts_scan_nothing (Stub evenSeen) 1
           (scanExternal 4294967296 0 0)).
  - repeat split; cbn; first [left; discriminate | lia | discriminate].
  - exists [], "rpc.cert", O. repeat split.
  - reflexivity.
  - reflexivity.
Defined.

(** On the stub [evenSeen], with valid flags: the run exits with status 0
    or is still scanning. *)
Lemma exit_status_follows_startup_witness :
  exists out,
    @main (Stub evenSeen) 1 (scanExternal 1 0 0)
      = @Exit (Stub evenSeen) 0 None out
    \/ @main (Stub evenSeen) 1 (scanExternal 1 0 0)
       = @Running (Stub evenSeen) out.
Proof.
  apply (proj1 (@exit_status_follows_startup (Stub evenSeen) 1
                  (scanExternal 1 0 0))).
  split.
  - repeat split; cbn; first [left; discriminate | lia | discriminate].
  - exists [], "rpc.cert", O. repeat split.
Defined.

(** ** Totals and the bucket size *)

(** With a node that answers by [seenBy], no fatal index in [begin, n) and
    window starts that do not wrap, a branch scan returns nil and its
    totals line counts the addresses of the whole range. *)
Lemma branchStats_closed `{Collaborators}
    (u : usage) (bk : ExtendedKey) (seenBy : Address -> bool)
    (n begin bucket branch : Z) (fuel : nat) (w : World) :
  is_uint32 n -> is_uint32 begin ->
  let effective := if bucket =? 0 then n else bucket in
  1 <= effective -> noWrap n effective begin ->
  (windowCount n effective begin <= fuel)%nat ->
  Child (xpub u) branch = inl bk ->
  answersBy seenBy ->
  (forall j, begin <= j < n -> fatalAt u bk j = None) ->
  let batch := batchOf u bk (indices begin n) in
  exists w' evs,
    branchStats fuel u n begin bucket branch w = (Done tt, w')
    /\ trace w' =
       trace w ++ evs ++
       [TotalsLine (seenCount seenBy true batch)
          (seenCount seenBy false batch)
          (fraction (seenCount seenBy true batch)
             (seenCount seenBy true batch + seenCount seenBy false batch))].
Proof.
  intros Hn Hbegin effective Heff Hw Hfuel Hbranch Hnode Hfatal batch.
  unfold is_uint32 in Hn, Hbegin.
  rewrite branchStats_unfold, Hbranch. fold effective.
  destruct (windowLoop_closed u bk seenBy n effective Hn Heff Hnode fuel
              begin 0 0 w ltac:(lia) Hw ltac:(lia) ltac:(lia) ltac:(lia)
              Hfuel Hfatal) as [w1 [Hrun [evs Hevs]]].
  rewrite Hrun, !Z.add_0_l. fold batch.
  assert (Hsum : 0 <= seenCount seenBy true batch
                      + seenCount seenBy false batch < 2 ^ 32).
  { unfold seenCount, batch.
    pose proof (batchOf_length_le u bk (indices begin n)) as Hle.
    rewrite indices_length in Hle.
    pose proof (filter_length_le (fun a => Bool.eqb (seenBy a) true)
                  (batchOf u bk (indices begin n))).
    assert (Hparts : forall l : list Address,
               (List.length (filter (fun a => Bool.eqb (seenBy a) true) l)
                + List.length (filter (fun a => Bool.eqb (seenBy a) false) l)
                = List.length l)%nat).
    { induction l as [|a l IH]; [reflexivity|].
      cbn [filter]. destruct (seenBy a); cbn [Bool.eqb List.length]; lia. }
    specialize (Hparts (batchOf u bk (indices begin n))). lia. }
  rewrite uint32_small by exact Hsum.
  eexists. exists evs. split; [reflexivity|].
  cbn [trace]. rewrite Hevs, <- app_assoc. reflexivity.
Qed.

(** The totals do not depend on the bucket size: from any [begin], with a
    fixed assignment of answers per address and no fatal index, two scans
    of [begin, n) with different bucket sizes, neither wrapping, both
    return nil and print the same totals line. *)
Theorem totals_independent_of_bucket `{Collaborators}
    (u : usage) (bk : ExtendedKey) (seenBy : Address -> bool)
    (n begin bucket1 bucket2 branch : Z) (w1 w2 : World) :
  is_uint32 n -> is_uint32 begin ->
  let effective1 := if bucket1 =? 0 then n else bucket1 in
  let effective2 := if bucket2 =? 0 then n else bucket2 in
  1 <= effective1 -> noWrap n effective1 begin ->
  1 <= effective2 -> noWrap n effective2 begin ->
  Child (xpub u) branch = inl bk ->
  answersBy seenBy ->
  (forall j, begin <= j < n -> fatalAt u bk j = None) ->
  exists line,
    (exists w' evs,
        branchStats (windowCount n effective1 begin) u n begin bucket1
          branch w1 = (Done tt, w')
        /\ trace w' = trace w1 ++ evs ++ [line])
    /\ (exists w' evs,
          branchStats (windowCount n effective2 begin) u n begin bucket2
            branch w2 = (Done tt, w')
          /\ trace w' = trace w2 ++ evs ++ [line])
    /\ exists totalUsed totalUnused,
         line = TotalsLine totalUsed totalUnused
                  (fraction totalUsed (totalUsed + totalUnused))
         /\ totalUsed + totalUnused
            = Z.of_nat (List.length (batchOf u bk (indices begin n))).
Proof.
  intros Hn Hbegin effective1 effective2 He1 Hw1 He2 Hw2 Hbranch Hnode
    Hfatal.
  eexists. split; [|split].
  - apply (branchStats_closed u bk seenBy n begin bucket1 branch _ w1 Hn
             Hbegin He1 Hw1 (Nat.le_refl _) Hbranch Hnode Hfatal).
  - apply (branchStats_closed u bk seenBy n begin bucket2 branch _ w2 Hn
             Hbegin He2 Hw2 (Nat.le_refl _) Hbranch Hnode Hfatal).
  - eexists. eexists. split; [reflexivity|].
    unfold seenCount.
    generalize (batchOf u bk (indices begin n)) as l.
    induction l as [|a l IH]; [reflexivity|].
    cbn [filter]. destruct (seenBy a); cbn [Bool.eqb List.length]; lia.
Qed.

(** On the stub [evenSeen]: the indices [3, 10) in buckets of two and in
    buckets of five. *)
Lemma totals_independent_of_bucket_witness :
  exists line,
    (exists w' evs,
        @branchStats (Stub evenSeen) 4 (stubUsage evenSeen) 10 3 2 0
          (freshWorld evenSeen) = (Done tt, w')
        /\ trace w' = [] ++ evs ++ [line])
    /\ (exists w' evs,
          @branchStats (Stub evenSeen) 2 (stubUsage evenSeen) 10 3 5 0
            (freshWorld evenSeen) = (Done tt, w')
          /\ trace w' = [] ++ evs ++ [line])
    /\ exists totalUsed totalUnused,
         line = @TotalsLine (Stub evenSeen) totalUsed totalUnused
                  (fraction totalUsed (totalUsed + totalUnused))
         /\ totalUsed + totalUnused = 7.
Proof.
  apply (@totals_independent_of_bucket (Stub evenSeen) (stubUsage evenSeen)
           [0] (seen evenSeen) 10 3 2 5 0
           (freshWorld evenSeen) (freshWorld evenSeen)).
  - unfold is_uint32. lia.
  - unfold is_uint32. lia.
  - cbv. discriminate.
  - reflexivity.
  - cbv. discriminate.
  - reflexivity.
  - reflexivity.
  - apply stub_answersBy. reflexivity.
  - intros j _. rewrite stub_fatalAt. reflexivity.
Defined.

(** ** A window whose end wraps *)

(** When [i + bucket] does not fit in 32 bits, the end of the window wraps
    below its start: the window has no index, so the indices of [i, n) are
    not derived; the query is sent with an empty batch; if it is answered
    the totals stay as they are, the line (when lines are printed) shows the
    wrapped end with 0 used and 0 unused, and the scan goes on from
    [i + bucket - 2^32], below [i]. *)
Theorem wrapped_window_is_empty `{Collaborators}
    (u : usage) (bk : ExtendedKey) (n bucket : Z) (fuel : nat)
    (i totalUsed totalUnused : Z) (w : World) :
  is_uint32 n -> is_uint32 bucket ->
  is_uint32 totalUsed -> is_uint32 totalUnused ->
  0 <= i < n -> 2 ^ 32 <= i + bucket ->
  let next := i + bucket - 2 ^ 32 in
  0 <= next < i
  /\ windowEnd n bucket i = next
  /\ indices i (windowEnd n bucket i) = []
  /\ windowLoop (S fuel) u bk n bucket i totalUsed totalUnused w =
     match UsedAddresses (remote w) [] with
     | (inr err, c) =>
         (Failed err, {| remote := c; trace := trace w ++ [Query []] |})
     | (inl bits, c) =>
         windowLoop fuel u bk n bucket next totalUsed totalUnused
           {| remote := c;
              trace := trace w ++
                       Query [] ::
                       (if bucket =? n then []
                        else [WindowLine i next 0 0 (fraction 0 0)]) |}
     end.
Proof.
  intros Hn Hbucket Hu Hun Hi Hwrap next.
  unfold is_uint32 in Hn, Hbucket.
  assert (Hmod : uint32 (i + bucket) = next).
  { unfold uint32, next. symmetry.
    apply (Z.mod_unique (i + bucket) (2 ^ 32) 1); lia. }
  assert (Hend : windowEnd n bucket i = next).
  { unfold windowEnd. rewrite Hmod. cbv zeta.
    replace (next >? n) with false; [reflexivity|].
    symmetry. rewrite Z.gtb_ltb. apply Z.ltb_ge. unfold next. lia. }
  split; [unfold next; lia|]. split; [exact Hend|].
  assert (Hnil : indices i (windowEnd n bucket i) = [])
    by (rewrite Hend; apply indices_nil; unfold next; lia).
  split; [exact Hnil|].
  rewrite windowLoop_step by (unfold is_uint32; lia). cbv zeta.
  rewrite Hnil. cbn [firstFatal batchOf flat_map List.length].
  destruct (UsedAddresses (remote w) []) as [[bits|err] c]; [|reflexivity].
  unfold windowEvents. cbn [List.length]. cbv zeta.
  change (bitCount bits true 0) with 0. change (bitCount bits false 0) with 0.
  rewrite !Z.add_0_r, Hmod, Hend.
  rewrite (uint32_small totalUsed Hu), (uint32_small totalUnused Hun).
  reflexivity.
Qed.

(** On the stub [evenSeen]: [n = 65537], [bucket = 2^32 - 65535], the
    window that starts at 65535. *)
Lemma wrapped_window_is_empty_witness :
  windowEnd 65537 4294901761 65535 = 0
  /\ @windowLoop (Stub evenSeen) 1 (stubUsage evenSeen) [0]
       65537 4294901761 65535 7 5 (freshWorld evenSeen) =
     @windowLoop (Stub evenSeen) 0 (stubUsage evenSeen) [0]
       65537 4294901761 0 7 5
       (@Build_World (Stub evenSeen) 1%nat
          [@Query (Stub evenSeen) [];
           @WindowLine (Stub evenSeen) 65535 0 0 0 (fraction 0 0)]).
Proof.
  destruct (@wrapped_window_is_empty (Stub evenSeen) (stubUsage evenSeen)
              [0] 65537 4294901761 O 65535 7 5 (freshWorld evenSeen))
    as [_ [Hend [_ Hstep]]]; try (unfold is_uint32; lia).
  split; [exact Hend|exact Hstep].
Defined.
